(** * monaco-liquid: structural validator, schema path resolver, path extractor

    A shallow embedding of the TypeScript sources of the package
    (the module with [unwrapSchema]/[navigateSchema]/[getTypeString] and the
    debounced validation attachment, called the current module below, and
    [src/index.ts]),
    followed by the properties stated about them. *)

From Stdlib Require Import String Ascii List Arith Lia Bool ZArith NArith.
From Stdlib Require Import DecimalString.
From Stdlib Require DecimalFacts DecimalPos DecimalN.
Import ListNotations.
Local Open Scope list_scope.
Local Open Scope string_scope.
Local Open Scope nat_scope.

(** ** JavaScript strings and regular expressions

    A string is a sequence of code units; the development covers the code
    units 0..255, one [ascii] each.  Only the regular-expression operators
    that occur in the sources are modelled. *)
Module JS.

Definition code (c : ascii) : nat := nat_of_ascii c.

Definition between (lo hi : nat) (c : ascii) : bool :=
  (lo <=? code c) && (code c <=? hi).

(** [\d] *)
Definition is_digit (c : ascii) : bool := between 48 57 c.

(** [a-zA-Z] *)
Definition is_alpha (c : ascii) : bool := between 97 122 c || between 65 90 c.

(** [\w] is [A-Za-z0-9_] *)
Definition is_word (c : ascii) : bool :=
  is_alpha c || is_digit c || Ascii.eqb c "_".

(** [\s]: tab, line feed, vertical tab, form feed, carriage return, space and
    the no-break space (the white space and line terminators below 256). *)
Definition is_space (c : ascii) : bool :=
  between 9 13 c || (code c =? 32) || (code c =? 160).

Inductive regex : Type :=
| Chr (c : ascii)                 (* a literal character *)
| Cls (p : ascii -> bool)         (* a character class *)
| Seq (r1 r2 : regex)             (* r1 r2 *)
| Alt (r1 r2 : regex)             (* r1|r2 *)
| Opt (r : regex)                 (* r?  (greedy) *)
| StarCls (p : ascii -> bool)     (* [..]*  (greedy) *)
| PlusCls (p : ascii -> bool)     (* [..]+  (greedy) *)
| Group (r : regex)               (* ( r ), the capture group 1 *)
| Eos.                            (* $ without the m flag *)

(** Least number of characters a match consumes. *)
Fixpoint minlen (r : regex) : nat :=
  match r with
  | Chr _ | Cls _ | PlusCls _ => 1
  | Seq r1 r2 => minlen r1 + minlen r2
  | Alt r1 r2 => Nat.min (minlen r1) (minlen r2)
  | Opt _ | StarCls _ | Eos => 0
  | Group r => minlen r
  end.

Section Matcher.
Context {A : Type}.

(** Greedy iteration of a class: take as many characters as possible and give
    one back at a time while the rest of the pattern fails. *)
Fixpoint star (p : ascii -> bool) (k : string -> option A) (s : string)
  : option A :=
  match s with
  | String c s' =>
      if p c then
        match star p k s' with
        | Some x => Some x
        | None => k s
        end
      else k s
  | EmptyString => k s
  end.

(** Backtracking matcher in continuation-passing style: [s] is the input
    left, [cap] the text of capture group 1 so far, [k] the rest of the
    pattern. *)
Fixpoint rmatch (r : regex) (s : string) (cap : option string)
         (k : string -> option string -> option A) : option A :=
  match r with
  | Chr c =>
      match s with
      | String c' s' => if Ascii.eqb c c' then k s' cap else None
      | EmptyString => None
      end
  | Cls p =>
      match s with
      | String c' s' => if p c' then k s' cap else None
      | EmptyString => None
      end
  | Seq r1 r2 => rmatch r1 s cap (fun s' cap' => rmatch r2 s' cap' k)
  | Alt r1 r2 =>
      match rmatch r1 s cap k with
      | Some x => Some x
      | None => rmatch r2 s cap k
      end
  | Opt r1 =>
      match rmatch r1 s cap k with
      | Some x => Some x
      | None => k s cap
      end
  | StarCls p => star p (fun s' => k s' cap) s
  | PlusCls p =>
      match s with
      | String c' s' => if p c' then star p (fun s' => k s' cap) s' else None
      | EmptyString => None
      end
  | Group r1 =>
      rmatch r1 s cap
        (fun s' _ => k s' (Some (substring 0 (String.length s - String.length s') s)))
  | Eos =>
      match s with
      | EmptyString => k s cap
      | String _ _ => None
      end
  end.
End Matcher.

(** A match at the head of [s]: its length and the text of group 1. *)
Definition matchAt (r : regex) (s : string) : option (nat * option string) :=
  rmatch r s None (fun s' cap => Some (String.length s - String.length s', cap)).

(** The array returned by [exec]: [index], [match[0]] and [match[1]]. *)
Record RegExpExecArray : Type := mkMatch
  { index : nat; matched : string; group1 : option string }.

(** [re.exec(str)] for a regex without the g flag, on the suffix [s] of [str]
    that starts at [idx]: the leftmost position at which the pattern matches. *)
Fixpoint search (r : regex) (s : string) (idx : nat) : option RegExpExecArray :=
  match matchAt r s with
  | Some (len, cap) => Some (mkMatch idx (substring 0 len s) cap)
  | None =>
      match s with
      | String _ s' => search r s' (S idx)
      | EmptyString => None
      end
  end.

Definition exec (r : regex) (str : string) : option RegExpExecArray :=
  search r str 0.

(** [/^.../.test(str)]: with [^] at the head of the pattern only index 0 is
    tried; [r] is the pattern after the [^]. *)
Definition test_anchored (r : regex) (str : string) : bool :=
  match matchAt r str with Some _ => true | None => false end.

(** The loop
    [match = re.exec(line); while (match !== null) { ...; match = re.exec(line) }]
    of a regex with the g flag whose [lastIndex] was reset to 0: every
    iteration finds the leftmost match at or after [lastIndex] and moves
    [lastIndex] to its end.  [s] is the suffix at [idx] and [skip] the number
    of characters before [lastIndex] is reached.  (The patterns scanned this
    way match at least two characters, see [scanned_patterns_consume].) *)
Fixpoint scan (r : regex) (s : string) (idx skip : nat) : list RegExpExecArray :=
  match s with
  | EmptyString => []
  | String _ s' =>
      match skip with
      | S n => scan r s' (S idx) n
      | 0 =>
          match matchAt r s with
          | Some (len, cap) =>
              mkMatch idx (substring 0 len s) cap :: scan r s' (S idx) (len - 1)
          | None => scan r s' (S idx) 0
          end
      end
  end.

Definition execAll (r : regex) (str : string) : list RegExpExecArray :=
  scan r str 0 0.

(** [str.split(re)] for a separator pattern that does not match the empty
    string: [cur] is the piece being collected, in reverse. *)
Fixpoint rev_string (acc : list ascii) (s : string) : string :=
  match acc with
  | [] => s
  | c :: acc' => rev_string acc' (String c s)
  end.

Fixpoint split_go (r : regex) (s : string) (skip : nat) (cur : list ascii)
  : list string :=
  match s with
  | EmptyString => [rev_string cur ""]
  | String c s' =>
      match skip with
      | S n => split_go r s' n cur
      | 0 =>
          match matchAt r s with
          | Some (S len, _) => rev_string cur "" :: split_go r s' len []
          | _ => split_go r s' 0 (c :: cur)
          end
      end
  end.

Definition split (r : regex) (str : string) : list string :=
  split_go r str 0 [].

(** [str.startsWith(p)] *)
Definition startsWith (p str : string) : bool := String.prefix p str.

(** [arr.findLastIndex(p)], with [None] for -1. *)
Fixpoint findLastIndex_from {A : Type} (p : A -> bool) (l : list A) (i : nat)
  : option nat :=
  match l with
  | [] => None
  | x :: l' =>
      match findLastIndex_from p l' (S i) with
      | Some j => Some j
      | None => if p x then Some i else None
      end
  end.

Definition findLastIndex {A : Type} (p : A -> bool) (l : list A) : option nat :=
  findLastIndex_from p l 0.

(** [arr.splice(i, 1)]: the array without its element at index [i]. *)
Definition splice1 {A : Type} (i : nat) (l : list A) : list A :=
  (firstn i l ++ skipn (S i) l)%list.

(** [arr.push(x)] *)
Definition push {A : Type} (l : list A) (x : A) : list A := (l ++ [x])%list.

(** [arr.pop()]: the last element and the array without it. *)
Definition pop {A : Type} (l : list A) : option (A * list A) :=
  match rev l with
  | [] => None
  | x :: r => Some (x, rev r)
  end.

(** [arr.sort((a, b) => key a - key b)]: a stable sort on a numeric key. *)
Fixpoint insert_by {A : Type} (key : A -> nat) (x : A) (l : list A) : list A :=
  match l with
  | [] => [x]
  | y :: l' => if key y <=? key x then y :: insert_by key x l' else x :: l
  end.

Definition sort_by {A : Type} (key : A -> nat) (l : list A) : list A :=
  fold_left (fun acc x => insert_by key x acc) l [].

(** [arr.join(sep)] on strings *)
Fixpoint join (sep : string) (l : list string) : string :=
  match l with
  | [] => ""
  | [x] => x
  | x :: l' => x ++ sep ++ join sep l'
  end.

(** A Number as [String(value)] reads it ([Number::toString] with radix 10):
    not a number, an infinity, a zero of either sign, or a finite value other
    than zero, given by its sign and by the integers of the ECMAScript
    definition: the decimal digits of [s], the fewest that identify the
    value ([k] of them, the first not a zero), and [n], the magnitude being
    [s * 10 ^ (n - k)]. *)
Inductive number : Type :=
| NaN
| Infinity (negative : bool)
| Zero
| Finite (negative : bool) (digits : string) (n : Z).

Fixpoint zeros (count : nat) : string :=
  match count with
  | 0 => ""
  | S count' => String "0" (zeros count')
  end.

(** The decimal representation of a natural number *)
Definition decimal (e : N) : string := NilZero.string_of_uint (N.to_uint e).

(** Steps 6 to 11 of [Number::toString]: plain digits when [n] is between
    -5 and 21, the notation with an exponent otherwise. *)
Definition magnitudeToString (digits : string) (n : Z) : string :=
  let k := Z.of_nat (String.length digits) in
  if ((-5 <=? n) && (n <=? 21))%Z then
    if (k <=? n)%Z then digits ++ zeros (Z.to_nat (n - k))
    else if (0 <? n)%Z then
      substring 0 (Z.to_nat n) digits ++ "."
      ++ substring (Z.to_nat n) (Z.to_nat (k - n)) digits
    else "0." ++ zeros (Z.to_nat (- n)) ++ digits
  else
    let exponentSign := if (n <? 0)%Z then "-" else "+" in
    let e := decimal (Z.abs_N (n - 1)) in
    if (k =? 1)%Z then digits ++ "e" ++ exponentSign ++ e
    else
      substring 0 1 digits ++ "."
      ++ substring 1 (String.length digits - 1) digits
      ++ "e" ++ exponentSign ++ e.

(** [String(x)] for a Number [x] *)
Definition numberToString (x : number) : string :=
  match x with
  | NaN => "NaN"
  | Zero => "0"
  | Infinity negative => (if negative then "-" else "") ++ "Infinity"
  | Finite negative digits n =>
      (if negative then "-" else "") ++ magnitudeToString digits n
  end.

End JS.

Declare Scope regex_scope.
Delimit Scope regex_scope with re.
Bind Scope regex_scope with JS.regex.
Notation "r1 ;; r2" := (JS.Seq r1 r2)
  (at level 61, right associativity) : regex_scope.

(** ** The editor's diagnostics *)
Module Monaco.

Inductive MarkerSeverity : Type := Hint | Info | Warning | Error.

Record IMarkerData : Type := mkMarker
  { severity : MarkerSeverity;
    message : string;
    startLineNumber : nat;
    startColumn : nat;
    endLineNumber : nat;
    endColumn : nat }.

Record Position : Type := mkPosition { lineNumber : nat; column : nat }.

End Monaco.

(** ** What the two validators have in common

    Both files declare the same four patterns and collect the output
    delimiters of a line in the same way. *)
Module Liquid.

Definition not_percent (c : ascii) : bool := negb (Ascii.eqb c "%").

(** [/{%-?\s*(\w+)(?:\s[^%]* )?-?%}/g]  (the source has no space inside
    the optional group) *)
Definition tagRegex : JS.regex :=
  (JS.Chr "{" ;; JS.Chr "%" ;; JS.Opt (JS.Chr "-") ;; JS.StarCls JS.is_space ;;
   JS.Group (JS.PlusCls JS.is_word) ;;
   JS.Opt (JS.Cls JS.is_space ;; JS.StarCls not_percent) ;;
   JS.Opt (JS.Chr "-") ;; JS.Chr "%" ;; JS.Chr "}")%re.

(** [/{%-?\s*end(\w+)\s*-?%}/g] *)
Definition endTagRegex : JS.regex :=
  (JS.Chr "{" ;; JS.Chr "%" ;; JS.Opt (JS.Chr "-") ;; JS.StarCls JS.is_space ;;
   JS.Chr "e" ;; JS.Chr "n" ;; JS.Chr "d" ;;
   JS.Group (JS.PlusCls JS.is_word) ;;
   JS.StarCls JS.is_space ;; JS.Opt (JS.Chr "-") ;; JS.Chr "%" ;; JS.Chr "}")%re.

(** [/\{\{-?/g] *)
Definition outputStartRegex : JS.regex :=
  (JS.Chr "{" ;; JS.Chr "{" ;; JS.Opt (JS.Chr "-"))%re.

(** [/-?\}\}/g] *)
Definition outputEndRegex : JS.regex :=
  (JS.Opt (JS.Chr "-") ;; JS.Chr "}" ;; JS.Chr "}")%re.

(** [/\r?\n/] of [text.split] *)
Definition lineBreak : JS.regex :=
  (JS.Opt (JS.Chr "013") ;; JS.Chr "010")%re.

(** [match[1]]; the group takes part in every match of the two tag patterns. *)
Definition capture1 (m : JS.RegExpExecArray) : string :=
  match JS.group1 m with
  | Some t => t
  | None => ""
  end.

Inductive outputType : Type := start | end_.

Record outputMatch : Type := mkOutput { type : outputType; index : nat }.

(** The start markers of the line, then its end markers, sorted by index. *)
Definition outputMatches (lineContent : string) : list outputMatch :=
  JS.sort_by index
    (map (fun m => mkOutput start (JS.index m))
         (JS.execAll outputStartRegex lineContent)
     ++ map (fun m => mkOutput end_ (JS.index m))
         (JS.execAll outputEndRegex lineContent))%list.

(** [lines.forEach((lineContent, index) => ...)] on a state [St]. *)
Fixpoint forEach_from {St : Type} (f : St -> string -> nat -> St)
         (lines : list string) (index : nat) (st : St) : St :=
  match lines with
  | [] => st
  | lineContent :: rest => forEach_from f rest (S index) (f st lineContent index)
  end.

Definition forEach {St : Type} (f : St -> string -> nat -> St)
           (lines : list string) (st : St) : St :=
  forEach_from f lines 0 st.

End Liquid.

(** ** The validator of the current module *)
Module Validator.
Import Monaco.

Record frame : Type := mkFrame
  { tag : string; lineNumber : nat; column : nat; length : nat }.

Record state : Type := mkState
  { stack : list frame; markers : list IMarkerData }.

Definition blockTags : list string :=
  [ "if"; "unless"; "case"; "for"; "tablerow"; "comment"; "raw"; "capture";
    "form"; "paginate"; "layout"; "block"; "schema"; "stylesheet";
    "javascript"; "liquid" ].

Definition isBlockTag (tag : string) : bool :=
  existsb (String.eqb tag) blockTags.

Definition isOutput (item : frame) : bool := String.eqb (tag item) "output".

Definition unmatchedClosing (lineNumber index : nat) : IMarkerData :=
  mkMarker Error "Unmatched closing '}}'"
           lineNumber (index + 1) lineNumber (index + 3).

(** One element of [outputMatches.forEach]. *)
Definition replayOutput (lineNumber : nat) (st : state)
           (outputMatch : Liquid.outputMatch) : state :=
  match Liquid.type outputMatch with
  | Liquid.start =>
      mkState (JS.push (stack st)
                 (mkFrame "output" lineNumber (Liquid.index outputMatch + 1) 2))
              (markers st)
  | Liquid.end_ =>
      match JS.findLastIndex isOutput (stack st) with
      | None =>
          mkState (stack st)
                  (JS.push (markers st)
                     (unmatchedClosing lineNumber (Liquid.index outputMatch)))
      | Some outputIndex =>
          mkState (JS.splice1 outputIndex (stack st)) (markers st)
      end
  end.

(** One iteration of the [tagRegex] loop. *)
Definition openTag (lineNumber : nat) (st : state) (m : JS.RegExpExecArray)
  : state :=
  let tag := Liquid.capture1 m in
  let position := JS.index m in
  if negb (JS.startsWith "end" tag) && isBlockTag tag then
    mkState (JS.push (stack st)
               (mkFrame tag lineNumber (position + 1)
                        (String.length (JS.matched m))))
            (markers st)
  else st.

Definition unmatchedEndTag (lineNumber position len : nat) (endTag : string)
  : IMarkerData :=
  mkMarker Error ("Unmatched end tag 'end" ++ endTag ++ "'")
           lineNumber (position + 1) lineNumber (position + len + 1).

Definition mismatchedEndTag (lineNumber position len : nat)
           (lastTag endTag : string) : IMarkerData :=
  mkMarker Error
           ("Expected 'end" ++ lastTag ++ "' but found 'end" ++ endTag ++ "'")
           lineNumber (position + 1) lineNumber (position + len + 1).

(** The body of the [endTagRegex] loop, on the match's group, index and length. *)
Definition closeTagAt (lineNumber : nat) (st : state)
           (endTag : string) (position len : nat) : state :=
  match JS.pop (stack st) with
  | None =>
      mkState (stack st)
              (JS.push (markers st)
                 (unmatchedEndTag lineNumber position len endTag))
  | Some (last, rest) =>
      if negb (String.eqb (tag last) endTag) then
        mkState rest
                (JS.push (markers st)
                   (mismatchedEndTag lineNumber position len (tag last) endTag))
      else mkState rest (markers st)
  end.

Definition closeTag (lineNumber : nat) (st : state) (m : JS.RegExpExecArray)
  : state :=
  closeTagAt lineNumber st (Liquid.capture1 m) (JS.index m)
             (String.length (JS.matched m)).

(** The body of [lines.forEach]: the output delimiters of the line, then its
    opening tags, then its closing tags. *)
Definition validateLine (st : state) (lineContent : string) (index : nat)
  : state :=
  let lineNumber := index + 1 in
  let st1 := fold_left (replayOutput lineNumber)
                       (Liquid.outputMatches lineContent) st in
  let st2 := fold_left (openTag lineNumber)
                       (JS.execAll Liquid.tagRegex lineContent) st1 in
  fold_left (closeTag lineNumber)
            (JS.execAll Liquid.endTagRegex lineContent) st2.

Definition unclosed (unmatchedTag : frame) : IMarkerData :=
  let message :=
    if isOutput unmatchedTag then "Unclosed output tag '{{'"
    else "Unclosed tag '" ++ tag unmatchedTag ++ "'" in
  mkMarker Error message
           (lineNumber unmatchedTag) (column unmatchedTag)
           (lineNumber unmatchedTag) (column unmatchedTag + length unmatchedTag).

(** [while (stack.length > 0) { const unmatchedTag = stack.pop()!; ... }]:
    the frames are taken from the end of the array. *)
Definition reportUnclosed (st : state) : list IMarkerData :=
  fold_left (fun ms unmatchedTag => JS.push ms (unclosed unmatchedTag))
            (rev (stack st)) (markers st).

(** The markers handed to [setModelMarkers] for the text of the model. *)
Definition validateLiquidSyntax (text : string) : list IMarkerData :=
  let lines := JS.split Liquid.lineBreak text in
  reportUnclosed (Liquid.forEach validateLine lines (mkState [] [])).

End Validator.
(** ** The validator of [src/index.ts] *)
Module IndexTs.
Import Monaco.

Record frame : Type := mkFrame
  { tag : string; lineNumber : nat; column : nat }.

Record state : Type := mkState
  { stack : list frame; markers : list IMarkerData }.

Definition blockTags : list string :=
  [ "if"; "unless"; "case"; "for"; "tablerow"; "comment"; "raw"; "capture";
    "form"; "paginate"; "layout"; "block"; "schema"; "stylesheet";
    "javascript" ].

Definition isBlockTag (tag : string) : bool :=
  existsb (String.eqb tag) blockTags.

Definition isOutput (item : frame) : bool := String.eqb (tag item) "output".

(** [while (stack.length > 0) { last = stack.pop(); if (last?.tag === 'output') break }]
    on the array read from its end: the frames left, in that order, and [last]. *)
Fixpoint popToOutput (fromTop : list frame) (last : option frame)
  : list frame * option frame :=
  match fromTop with
  | [] => ([], last)
  | item :: below =>
      if isOutput item then (below, Some item)
      else popToOutput below (Some item)
  end.

Definition unmatchedClosing (lineNumber index : nat) : IMarkerData :=
  Monaco.mkMarker Error "Unmatched closing '}}'"
                  lineNumber (index + 1) lineNumber (index + 3).

Definition replayOutput (lineNumber : nat) (st : state)
           (outputMatch : Liquid.outputMatch) : state :=
  match Liquid.type outputMatch with
  | Liquid.start =>
      mkState (JS.push (stack st)
                 (mkFrame "output" lineNumber (Liquid.index outputMatch + 1)))
              (markers st)
  | Liquid.end_ =>
      let (fromTop, last) := popToOutput (rev (stack st)) None in
      let unmatched :=
        match last with
        | None => true
        | Some item => negb (isOutput item)
        end in
      if unmatched then
        mkState (rev fromTop)
                (JS.push (markers st)
                   (unmatchedClosing lineNumber (Liquid.index outputMatch)))
      else mkState (rev fromTop) (markers st)
  end.

Definition openTag (lineNumber : nat) (st : state) (m : JS.RegExpExecArray)
  : state :=
  let tag := Liquid.capture1 m in
  let position := JS.index m in
  if negb (JS.startsWith "end" tag) && isBlockTag tag then
    mkState (JS.push (stack st) (mkFrame tag lineNumber (position + 1)))
            (markers st)
  else st.

Definition closeTagAt (lineNumber : nat) (st : state)
           (endTag : string) (position len : nat) : state :=
  match JS.pop (stack st) with
  | None =>
      mkState (stack st)
              (JS.push (markers st)
                 (Validator.unmatchedEndTag lineNumber position len endTag))
  | Some (last, rest) =>
      if negb (String.eqb (tag last) endTag) then
        mkState rest
                (JS.push (markers st)
                   (Validator.mismatchedEndTag lineNumber position len
                      (tag last) endTag))
      else mkState rest (markers st)
  end.

Definition closeTag (lineNumber : nat) (st : state) (m : JS.RegExpExecArray)
  : state :=
  closeTagAt lineNumber st (Liquid.capture1 m) (JS.index m)
             (String.length (JS.matched m)).

Definition validateLine (st : state) (lineContent : string) (index : nat)
  : state :=
  let lineNumber := index + 1 in
  let st1 := fold_left (replayOutput lineNumber)
                       (Liquid.outputMatches lineContent) st in
  let st2 := fold_left (openTag lineNumber)
                       (JS.execAll Liquid.tagRegex lineContent) st1 in
  fold_left (closeTag lineNumber)
            (JS.execAll Liquid.endTagRegex lineContent) st2.

(** [n || 1] on a number *)
Definition or1 (n : nat) : nat := if n =? 0 then 1 else n.

Definition unclosed (unmatchedTag : frame) : IMarkerData :=
  let message :=
    if isOutput unmatchedTag then "Unclosed output tag '{{'"
    else "Unclosed tag '" ++ tag unmatchedTag ++ "'" in
  Monaco.mkMarker Error message
                  (or1 (lineNumber unmatchedTag)) (or1 (column unmatchedTag))
                  (or1 (lineNumber unmatchedTag)) (or1 (column unmatchedTag)).

Definition reportUnclosed (st : state) : list IMarkerData :=
  fold_left (fun ms unmatchedTag => JS.push ms (unclosed unmatchedTag))
            (rev (stack st)) (markers st).

Definition validateLiquidSyntax (text : string) : list IMarkerData :=
  let lines := JS.split Liquid.lineBreak text in
  reportUnclosed (Liquid.forEach validateLine lines (mkState [] [])).

End IndexTs.
(** ** Schema descriptors

    The classes of the schema library the module tests with [instanceof], as
    one tagged tree.  [ZodOther] stands for every class the module does not
    name. *)
Module Zod.

(** The values a literal schema can hold: a string, a Number, a BigInt, a
    boolean, [null] or [undefined]. *)
Inductive literal : Type :=
| LString (s : string)
| LNumber (x : JS.number)
| LBigInt (n : Z)
| LBoolean (b : bool)
| LNull
| LUndefined.

#[local] Set Warnings "-register-all".
Inductive ZodType : Type :=
| ZodOptional (innerType : ZodType)
| ZodNullable (innerType : ZodType)
| ZodDefault (innerType : ZodType)
| ZodArray (element : ZodType)
| ZodObject (shape : list (string * ZodType))
| ZodString
| ZodNumber
| ZodBoolean
| ZodDate
| ZodLiteral (values : list literal)
| ZodEnum (entries : list (string * string))
| ZodUnion (options : list ZodType)
| ZodOther.

(** [Object.prototype.hasOwnProperty.call(obj, key)] followed by [obj[key]],
    on an object given by its own properties in order. *)
Fixpoint ownProperty {V : Type} (obj : list (string * V)) (key : string)
  : option V :=
  match obj with
  | [] => None
  | (k, v) :: rest => if String.eqb k key then Some v else ownProperty rest key
  end.

End Zod.

(** ** Path resolution and type rendering *)
Module Schema.
Import Zod.

Fixpoint unwrapSchema (schema : ZodType) : ZodType :=
  match schema with
  | ZodOptional innerType => unwrapSchema innerType
  | ZodNullable innerType => unwrapSchema innerType
  | ZodDefault innerType => unwrapSchema innerType
  | _ => schema
  end.

(** [/^\d+$/.test(segment)] *)
Definition isIndex (segment : string) : bool :=
  JS.test_anchored (JS.PlusCls JS.is_digit ;; JS.Eos)%re segment.

(** [if (currentSchema instanceof ZodArray) currentSchema = unwrapSchema(currentSchema.element)] *)
Definition arrayElement (currentSchema : ZodType) : ZodType :=
  match currentSchema with
  | ZodArray element => unwrapSchema element
  | _ => currentSchema
  end.

(** The body of the loop of [navigateSchema]; [None] is [return null]. *)
Definition navigateStep (currentSchema : ZodType) (segment : string)
  : option ZodType :=
  let currentSchema := unwrapSchema currentSchema in
  let currentSchema := arrayElement currentSchema in
  if isIndex segment then Some currentSchema
  else
    match currentSchema with
    | ZodObject shape => ownProperty shape segment
    | _ => None
    end.

Fixpoint navigateLoop (currentSchema : ZodType) (path : list string)
  : option ZodType :=
  match path with
  | [] => Some (unwrapSchema currentSchema)
  | segment :: rest =>
      match navigateStep currentSchema segment with
      | None => None
      | Some next => navigateLoop next rest
      end
  end.

Definition navigateSchema (schema : ZodType) (path : list string)
  : option ZodType :=
  navigateLoop (unwrapSchema schema) path.

(** The double-quote character *)
Definition dquote : string := String "034" "".

Definition quoted (v : string) : string := dquote ++ v ++ dquote.

(** [String(value)] on a literal that is not a string *)
Definition toString (value : literal) : string :=
  match value with
  | LString s => s
  | LNumber x => JS.numberToString x
  | LBigInt n => NilZero.string_of_int (Z.to_int n)
  | LBoolean true => "true"
  | LBoolean false => "false"
  | LNull => "null"
  | LUndefined => "undefined"
  end.

(** [typeof value === 'string' ? `"${value}"` : String(value)] for
    [value = values[0]], which is [undefined] on an empty array. *)
Definition literalString (values : list literal) : string :=
  match hd LUndefined values with
  | LString s => quoted s
  | value => toString value
  end.

Fixpoint getTypeString (schema : ZodType) : string :=
  let unwrapped := unwrapSchema schema in
  match unwrapped with
  | ZodArray element => "Array<" ++ getTypeString element ++ ">"
  | ZodObject _ => "Object"
  | ZodString => "String"
  | ZodNumber => "Number"
  | ZodBoolean => "Boolean"
  | ZodDate => "Date"
  | ZodLiteral values => literalString values
  | ZodEnum entries => JS.join " | " (map (fun e => quoted (snd e)) entries)
  | ZodUnion options => JS.join " | " (map getTypeString options)
  | _ => "Unknown"
  end.

Definition getTypeInfoFromSchema (schema : ZodType) (path : list string)
  : option string :=
  match navigateSchema schema path with
  | None => None
  | Some navigated => Some (getTypeString navigated)
  end.

End Schema.
(** ** Path extraction and schema completions *)
Module Completion.
Import Zod.

Inductive Range : Type :=
| mkRange (startLineNumber startColumn endLineNumber endColumn : nat).

Record IWordAtPosition : Type := mkWord
  { word : string; startColumn : nat; endColumn : nat }.

(** What the module reads from the editor's text model. *)
Record ITextModel : Type := mkModel
  { getLineContent : nat -> string;
    getWordUntilPosition : Monaco.Position -> IWordAtPosition }.

Inductive CompletionItemKind : Type :=
| KindVariable | KindClass | KindProperty | KindKeyword.

Record CompletionItem : Type := mkItem
  { label : string;
    kind : CompletionItemKind;
    insertText : string;
    detail : option string;
    documentation : option string;
    range : Range;
    sortText : string }.

(** [a-zA-Z_] *)
Definition is_path_start (c : ascii) : bool :=
  JS.is_alpha c || Ascii.eqb c "_".

(** [\w\-.\[\]] as a class *)
Definition is_path_char (c : ascii) : bool :=
  JS.is_word c || Ascii.eqb c "-" || Ascii.eqb c "." || Ascii.eqb c "["
  || Ascii.eqb c "]".

(** [/[a-zA-Z_][\w\-.\[\]]*$/] *)
Definition variablePathRegex : JS.regex :=
  (JS.Cls is_path_start ;; JS.StarCls is_path_char ;; JS.Eos)%re.

Definition getVariablePathAtPosition (model : ITextModel)
           (position : Monaco.Position) : option string :=
  let lineContent := getLineContent model (Monaco.lineNumber position) in
  let textUntilPosition :=
    substring 0 (Monaco.column position - 1) lineContent in
  match JS.exec variablePathRegex textUntilPosition with
  | Some m => Some (JS.matched m)
  | None => None
  end.

(** [/\.|\[|\]/] *)
Definition pathSeparator : JS.regex :=
  JS.Alt (JS.Chr ".") (JS.Alt (JS.Chr "[") (JS.Chr "]")).

(** [variablePath.split(...).filter((segment) => segment !== '')] *)
Definition pathSegments (variablePath : string) : list string :=
  filter (fun segment => negb (String.eqb segment ""))
         (JS.split pathSeparator variablePath).

Definition getCompletionKindForSchema (schema : ZodType) : CompletionItemKind :=
  match Schema.unwrapSchema schema with
  | ZodArray _ => KindVariable
  | ZodObject _ => KindClass
  | _ => KindProperty
  end.

Definition getSuggestionsFromSchema (schema : ZodType) (path : list string)
           (range : Range) : list CompletionItem :=
  match Schema.navigateSchema schema path with
  | None => []
  | Some navigated =>
      let currentSchema := Schema.unwrapSchema navigated in
      let currentSchema := Schema.arrayElement currentSchema in
      match currentSchema with
      | ZodObject shape =>
          map (fun entry =>
                 let key := fst entry in
                 let value := snd entry in
                 let typeString := Schema.getTypeString value in
                 mkItem key (getCompletionKindForSchema value) key
                        (Some typeString)
                        (Some ("**Type:** `" ++ typeString ++ "`"))
                        range ("1" ++ key))
              shape
      | _ => []
      end
  end.

(** [pathSegments[0]] used as a property key: a missing element reads as
    [undefined]. *)
Definition firstSegment (segments : list string) : string :=
  hd "undefined" segments.

Definition getSchemaSuggestions (model : ITextModel)
           (position : Monaco.Position) (schemas : list (string * ZodType))
  : list CompletionItem :=
  let wordUntilPosition := getWordUntilPosition model position in
  let range :=
    mkRange (Monaco.lineNumber position) (startColumn wordUntilPosition)
            (Monaco.lineNumber position) (endColumn wordUntilPosition) in
  let variablePath := getVariablePathAtPosition model position in
  let truthy :=
    match variablePath with
    | Some p => negb (String.eqb p "")
    | None => false
    end in
  if truthy then
    let segments :=
      pathSegments (match variablePath with Some p => p | None => "" end) in
    let variableName := firstSegment segments in
    match ownProperty schemas variableName with
    | Some schema => getSuggestionsFromSchema schema (tl segments) range
    | None => []
    end
  else
    map (fun entry =>
           let variableName := fst entry in
           mkItem variableName KindVariable variableName None None range
                  ("0" ++ variableName))
        schemas.

End Completion.

(** ** The debounced validation attachment

    Time is a number of milliseconds.  The host keeps the table of pending
    timers; it runs the callback of a timer when it turns to the first event
    at or after the timer's due time. *)
Module Debounce.

Record host : Type := mkHost
  { now : nat;
    nextHandle : nat;
    timers : list (nat * nat);         (* handle, due time *)
    text : string;                     (* model.getValue() *)
    validationTimeout : option nat;    (* the variable of the closure *)
    passes : list string }.            (* the text each validation pass read *)

(** The markers published so far, one list for every pass. *)
Definition published (h : host) : list (list Monaco.IMarkerData) :=
  map Validator.validateLiquidSyntax (passes h).

(** [window.setTimeout(callback, delay)]: the new handle and the host. *)
Definition setTimeout (h : host) (delay : nat) : nat * host :=
  (nextHandle h,
   mkHost (now h) (S (nextHandle h))
          (JS.push (timers h) (nextHandle h, now h + delay))
          (text h) (validationTimeout h) (passes h)).

(** [window.clearTimeout(handle)] *)
Definition clearTimeout (h : host) (handle : nat) : host :=
  mkHost (now h) (nextHandle h)
         (filter (fun t => negb (fst t =? handle)) (timers h))
         (text h) (validationTimeout h) (passes h).

Definition setValidationTimeout (h : host) (v : option nat) : host :=
  mkHost (now h) (nextHandle h) (timers h) (text h) v (passes h).

(** The callback given to [setTimeout]: a validation pass on the current text,
    then [validationTimeout = undefined]. *)
Definition timeoutCallback (h : host) : host :=
  mkHost (now h) (nextHandle h) (timers h) (text h) None
         (JS.push (passes h) (text h)).

(** The listener given to [model.onDidChangeContent]. *)
Definition onDidChangeContent (debounceMs : nat) (h : host) : host :=
  let h1 :=
    match validationTimeout h with
    | Some handle => clearTimeout h handle
    | None => h
    end in
  let (handle, h2) := setTimeout h1 debounceMs in
  setValidationTimeout h2 (Some handle).

(** [setModelLiquidValidation]: one pass at once, no timer pending. *)
Definition setModelLiquidValidation (start : nat) (value : string) : host :=
  mkHost start 0 [] value None [value].

(** The host moves its clock to [t] and runs the timers due by then, earliest
    first; each of them is the callback above. *)
Definition advance (t : nat) (h : host) : host :=
  let due := JS.sort_by snd (filter (fun tm => snd tm <=? t) (timers h)) in
  let later := filter (fun tm => negb (snd tm <=? t)) (timers h) in
  let h0 := mkHost (Nat.max (now h) t) (nextHandle h) later (text h)
                   (validationTimeout h) (passes h) in
  fold_left (fun acc _ => timeoutCallback acc) due h0.

(** An edit at time [t] that leaves the model with [value]: the host runs what
    is due, changes the text and notifies the listener. *)
Definition change (debounceMs : nat) (h : host) (t : nat) (value : string)
  : host :=
  let h1 := advance t h in
  onDidChangeContent debounceMs
    (mkHost (now h1) (nextHandle h1) (timers h1) value
            (validationTimeout h1) (passes h1)).

(** A burst: the first edit after [gap0], every later one [gap] after the one
    before it. *)
Fixpoint burst (debounceMs : nat) (h : host) (edits : list (nat * string))
  : host :=
  match edits with
  | [] => h
  | (gap, value) :: rest =>
      burst debounceMs (change debounceMs h (now h + gap) value) rest
  end.

End Debounce.

(** ** Vocabulary of the properties *)

Definition LF : string := String "010" "".

(** Two blocks one after the other on one line. *)
Definition two_blocks_on_a_line : string :=
  "{% if a %}{% endif %}{% for x in y %}{% endfor %}".

(** The same two blocks, one tag to a line. *)
Definition two_blocks_on_four_lines : string :=
  "{% if a %}" ++ LF ++ "{% endif %}" ++ LF ++
  "{% for x in y %}" ++ LF ++ "{% endfor %}".

(** An output expression that opens inside a block and closes on the next
    line. *)
Definition output_across_lines : string :=
  "{% if x %}{{ product.title" ++ LF ++ "  | upcase }}{% endif %}".

(** The document of the package's README. *)
Definition readme_document : string :=
  "{% if user %}" ++ LF ++ "  Hello, {{ user.name }}!" ++ LF ++ "{% endif %}".

(** The wrapper variants, and a chain of them around a descriptor. *)
Inductive wrapper : Type := Optional | Nullable | WithDefault.

Definition wrap1 (w : wrapper) (inner : Zod.ZodType) : Zod.ZodType :=
  match w with
  | Optional => Zod.ZodOptional inner
  | Nullable => Zod.ZodNullable inner
  | WithDefault => Zod.ZodDefault inner
  end.

Definition wrap (ws : list wrapper) (inner : Zod.ZodType) : Zod.ZodType :=
  fold_right wrap1 inner ws.

Definition isWrapper (schema : Zod.ZodType) : bool :=
  match schema with
  | Zod.ZodOptional _ | Zod.ZodNullable _ | Zod.ZodDefault _ => true
  | _ => false
  end.

(** The grammar of a variable path, as the words describe it: a letter or an
    underscore, then word characters, hyphens, dots and square brackets. *)
Fixpoint all_chars (p : ascii -> bool) (s : string) : bool :=
  match s with
  | EmptyString => true
  | String c s' => p c && all_chars p s'
  end.

Definition path_grammar (s : string) : bool :=
  match s with
  | String c rest =>
      Completion.is_path_start c && all_chars Completion.is_path_char rest
  | EmptyString => false
  end.

Inductive suffix_of : string -> string -> Prop :=
| suffix_all (s : string) : suffix_of s s
| suffix_tail (c : ascii) (s t : string) :
    suffix_of t s -> suffix_of t (String c s).

(** Cutting a string at every dot and square bracket. *)
Definition is_separator (c : ascii) : bool :=
  Ascii.eqb c "." || Ascii.eqb c "[" || Ascii.eqb c "]".

Fixpoint pieces (s : string) (cur : list ascii) : list string :=
  match s with
  | EmptyString => [JS.rev_string cur ""]
  | String c s' =>
      if is_separator c then JS.rev_string cur "" :: pieces s' []
      else pieces s' (c :: cur)
  end.

(** The longest prefix without a separator. *)
Fixpoint until_separator (s : string) : string :=
  match s with
  | EmptyString => ""
  | String c s' => if is_separator c then "" else String c (until_separator s')
  end.

(** A validation is pending on the host: one timer, due a debounce window
    after the host's clock, and the closure holds its handle. *)
Definition pending (debounceMs : nat) (h : Debounce.host) : Prop :=
  exists handle,
    Debounce.timers h = [(handle, Debounce.now h + debounceMs)]
    /\ Debounce.validationTimeout h = Some handle.

(** A model attached at time 0, and two edits typed 120 ms and 299 ms after
    the edit before them. *)
Definition attached : Debounce.host :=
  Debounce.setModelLiquidValidation 0 "{% if x %}".

Definition typing : list (nat * string) :=
  [(120, "{% if x %}{{"); (299, "{% if x %}{{ y")].

(** The state of the current validator after the last line, before the
    frames left are reported. *)
Definition pass (text : string) : Validator.state :=
  Liquid.forEach Validator.validateLine (JS.split Liquid.lineBreak text)
                 (Validator.mkState [] []).

(** A frame of the current validator as [src/index.ts] records it. *)
Definition forget (f : Validator.frame) : IndexTs.frame :=
  IndexTs.mkFrame (Validator.tag f) (Validator.lineNumber f)
                  (Validator.column f).

Definition related (v : Validator.state) (i : IndexTs.state) : Prop :=
  map forget (Validator.stack v) = IndexTs.stack i
  /\ Validator.markers v = IndexTs.markers i.

(** An output-close marker meets an empty stack or an output frame on top. *)
Definition closeOnTop (st : Validator.state) (outputMatch : Liquid.outputMatch)
  : bool :=
  match Liquid.type outputMatch with
  | Liquid.start => true
  | Liquid.end_ =>
      match JS.pop (Validator.stack st) with
      | None => true
      | Some (top, _) => Validator.isOutput top
      end
  end.

Definition notLiquid (m : JS.RegExpExecArray) : bool :=
  negb (String.eqb (Liquid.capture1 m) "liquid").

(** [ok] holds of every element of [l] in the state in which [step] meets it. *)
Fixpoint holds_along {St E : Type} (step : St -> E -> St)
         (ok : St -> E -> bool) (l : list E) (st : St) : bool :=
  match l with
  | [] => true
  | e :: rest => ok st e && holds_along step ok rest (step st e)
  end.

Definition lineAgrees (st : Validator.state) (lineContent : string)
           (index : nat) : bool :=
  holds_along (Validator.replayOutput (index + 1)) closeOnTop
              (Liquid.outputMatches lineContent) st
  && forallb notLiquid (JS.execAll Liquid.tagRegex lineContent).

Fixpoint linesAgree (lines : list string) (index : nat) (st : Validator.state)
  : bool :=
  match lines with
  | [] => true
  | lineContent :: rest =>
      lineAgrees st lineContent index
      && linesAgree rest (S index) (Validator.validateLine st lineContent index)
  end.

(** During the validation of [text] no [liquid] tag opens a block and every
    output-close marker meets an empty stack or an output frame on top. *)
Definition agreeable (text : string) : bool :=
  linesAgree (JS.split Liquid.lineBreak text) 0 (Validator.mkState [] []).

(** A diagnostic with its range cut down to its start. *)
Definition zeroWidth (m : Monaco.IMarkerData) : Monaco.IMarkerData :=
  Monaco.mkMarker (Monaco.severity m) (Monaco.message m)
                  (Monaco.startLineNumber m) (Monaco.startColumn m)
                  (Monaco.endLineNumber m) (Monaco.startColumn m).

(** Lines and columns are counted from 1. *)
Definition placed (f : Validator.frame) : Prop :=
  0 < Validator.lineNumber f /\ 0 < Validator.column f.

(** ** Vocabulary of the further properties *)

(** The lines the validator scans. *)
Definition linesOf (text : string) : list string :=
  JS.split Liquid.lineBreak text.

(** A diagnostic lies in the document: it is an error on one line that
    exists, and its columns, counted from 1, bound a non-empty range that
    ends at most one past the end of the line. *)
Definition markerInside (lines : list string) (m : Monaco.IMarkerData) : Prop :=
  Monaco.severity m = Monaco.Error
  /\ Monaco.startLineNumber m = Monaco.endLineNumber m
  /\ 1 <= Monaco.startLineNumber m <= List.length lines
  /\ 1 <= Monaco.startColumn m
  /\ Monaco.startColumn m < Monaco.endColumn m
  /\ Monaco.endColumn m
     <= String.length (nth (Monaco.startLineNumber m - 1) lines "") + 1.

Definition frameInside (lines : list string) (f : Validator.frame) : Prop :=
  1 <= Validator.lineNumber f <= List.length lines
  /\ 1 <= Validator.column f
  /\ 1 <= Validator.length f
  /\ Validator.column f + Validator.length f
     <= String.length (nth (Validator.lineNumber f - 1) lines "") + 1.

Definition stateInside (lines : list string) (st : Validator.state) : Prop :=
  Forall (frameInside lines) (Validator.stack st)
  /\ Forall (markerInside lines) (Validator.markers st).

(** The constructs a line opens and closes, as the validator's loops see
    them: an output-open delimiter or an opening block tag that is pushed; an
    output-close delimiter or a closing tag. *)
Definition isStart (om : Liquid.outputMatch) : bool :=
  match Liquid.type om with
  | Liquid.start => true
  | Liquid.end_ => false
  end.

Definition pushes (m : JS.RegExpExecArray) : bool :=
  negb (JS.startsWith "end" (Liquid.capture1 m))
  && Validator.isBlockTag (Liquid.capture1 m).

Definition count {A : Type} (p : A -> bool) (l : list A) : nat :=
  List.length (filter p l).

Definition lineOpens (line : string) : nat :=
  count isStart (Liquid.outputMatches line)
  + count pushes (JS.execAll Liquid.tagRegex line).

Definition lineCloses (line : string) : nat :=
  count (fun om => negb (isStart om)) (Liquid.outputMatches line)
  + List.length (JS.execAll Liquid.endTagRegex line).

Definition opens (text : string) : nat :=
  list_sum (map lineOpens (linesOf text)).

Definition closes (text : string) : nat :=
  list_sum (map lineCloses (linesOf text)).

(** From [st0] to [st], with [o] constructs opened and [c] closed: every
    frame gone was taken by a closing construct, and every closing construct
    took a frame or added a diagnostic. *)
Definition balanced (o c : nat) (st0 st : Validator.state) : Prop :=
  List.length (Validator.stack st0) + o
  <= List.length (Validator.stack st) + c
  /\ List.length (Validator.stack st) + c + List.length (Validator.markers st0)
     <= List.length (Validator.stack st0) + o
        + List.length (Validator.markers st).

(** Text without a brace. *)
Definition no_brace (c : ascii) : bool :=
  negb (Ascii.eqb c "{") && negb (Ascii.eqb c "}").

Definition brace_free (s : string) : bool := all_chars no_brace s.

(** A line: text without a carriage return or a line feed. *)
Definition no_break (c : ascii) : bool :=
  negb (Ascii.eqb c "013") && negb (Ascii.eqb c "010").

Definition plain (s : string) : bool := all_chars no_break s.

Definition CRLF : string := String "013" (String "010" "").

(** The characters of [x] put on [cur], the last one first. *)
Fixpoint push_chars (x : string) (cur : list ascii) : list ascii :=
  match x with
  | EmptyString => cur
  | String c x' => push_chars x' (c :: cur)
  end.













(** A segment of decimal digits. *)
Definition digits (s : string) : bool :=
  match s with
  | EmptyString => false
  | String _ _ => all_chars JS.is_digit s
  end.

(** ** The path extractor and the resolver of [src/index.ts] *)
Module IndexTsSchema.
Import Zod.

(** [\w\.\[\]] as a class *)
Definition is_path_char (c : ascii) : bool :=
  JS.is_word c || Ascii.eqb c "." || Ascii.eqb c "[" || Ascii.eqb c "]".

(** [/[a-zA-Z_][\w\.\[\]]*$/] *)
Definition variablePathRegex : JS.regex :=
  (JS.Cls Completion.is_path_start ;; JS.StarCls is_path_char ;; JS.Eos)%re.

Definition getVariablePathAtPosition (model : Completion.ITextModel)
           (position : Monaco.Position) : option string :=
  let lineContent :=
    Completion.getLineContent model (Monaco.lineNumber position) in
  let textUntilPosition :=
    substring 0 (Monaco.column position - 1) lineContent in
  match JS.exec variablePathRegex textUntilPosition with
  | Some m => Some (JS.matched m)
  | None => None
  end.

(** The body of the loop of [getTypeInfoFromSchema]; no wrapper is
    unwrapped. *)
Definition navigateStep (currentSchema : ZodType) (segment : string)
  : option ZodType :=
  let currentSchema :=
    match currentSchema with
    | ZodArray element => element
    | _ => currentSchema
    end in
  if Schema.isIndex segment then Some currentSchema
  else
    match currentSchema with
    | ZodObject shape => ownProperty shape segment
    | _ => None
    end.

Fixpoint navigateLoop (currentSchema : ZodType) (path : list string)
  : option ZodType :=
  match path with
  | [] => Some currentSchema
  | segment :: rest =>
      match navigateStep currentSchema segment with
      | None => None
      | Some next => navigateLoop next rest
      end
  end.

(** The chain of [instanceof] tests that ends [getTypeInfoFromSchema]. *)
Definition typeName (currentSchema : ZodType) : string :=
  match currentSchema with
  | ZodArray _ => "Array"
  | ZodObject _ => "Object"
  | ZodString => "String"
  | ZodNumber => "Number"
  | ZodBoolean => "Boolean"
  | _ => "Unknown"
  end.

Definition getTypeInfoFromSchema (schema : ZodType) (path : list string)
  : option string :=
  match navigateLoop schema path with
  | None => None
  | Some currentSchema => Some (typeName currentSchema)
  end.

End IndexTsSchema.

(** The last character of a string. *)
Fixpoint last_char (s : string) : option ascii :=
  match s with
  | EmptyString => None
  | String c EmptyString => Some c
  | String _ s' => last_char s'
  end.

(** The text is empty or ends outside the characters of a path. *)
Definition ends_outside_path (text : string) : bool :=
  match last_char text with
  | None => true
  | Some c => negb (Completion.is_path_char c)
  end.



Definition not_separator (c : ascii) : bool := negb (is_separator c).

(** A segment: not empty, no dot and no square bracket. *)
Definition is_segment (s : string) : bool :=
  negb (String.eqb s "") && all_chars not_separator s.

(** A string without its dots and square brackets. *)
Fixpoint drop_separators (s : string) : string :=
  match s with
  | EmptyString => ""
  | String c s' =>
      if is_separator c then drop_separators s'
      else String c (drop_separators s')
  end.

(** The grammar of a variable path in [src/index.ts]: no hyphen. *)
Definition path_grammar_index_ts (s : string) : bool :=
  match s with
  | String c rest =>
      Completion.is_path_start c && all_chars IndexTsSchema.is_path_char rest
  | EmptyString => false
  end.

Definition not_hyphen (c : ascii) : bool := negb (Ascii.eqb c "-").

(** ** Disposing of the validation attachment *)
Module Attachment.

(** The host with what the attachment adds to it: whether its listener is
    still subscribed, and the number of passes run when the markers were
    last cleared by [dispose]. *)
Record attachment : Type := mkAttachment
  { host : Debounce.host;
    listening : bool;
    clearedAt : option nat }.

Definition attach (start : nat) (value : string) : attachment :=
  mkAttachment (Debounce.setModelLiquidValidation start value) true None.

(** The markers of owner [liquid] on the model: those of the last call of
    [setModelMarkers], by a validation pass or by [dispose]. *)
Definition markersNow (a : attachment) : list Monaco.IMarkerData :=
  let fromPass := last (Debounce.published (host a)) [] in
  match clearedAt a with
  | Some n =>
      if List.length (Debounce.passes (host a)) =? n then [] else fromPass
  | None => fromPass
  end.

(** The [dispose] of the object [setModelLiquidValidation] returns. *)
Definition dispose (a : attachment) : attachment :=
  let h := host a in
  let h1 :=
    match Debounce.validationTimeout h with
    | Some handle => Debounce.clearTimeout h handle
    | None => h
    end in
  mkAttachment h1 false (Some (List.length (Debounce.passes h1))).

(** What the host does next: an edit at a time, or its clock moving on. *)
Inductive event : Type :=
| Edit (t : nat) (value : string)
| Tick (t : nat).

Definition step (debounceMs : nat) (a : attachment) (e : event) : attachment :=
  match e with
  | Edit t value =>
      let h1 := Debounce.advance t (host a) in
      let h2 :=
        Debounce.mkHost (Debounce.now h1) (Debounce.nextHandle h1)
                        (Debounce.timers h1) value
                        (Debounce.validationTimeout h1) (Debounce.passes h1) in
      mkAttachment
        (if listening a then Debounce.onDidChangeContent debounceMs h2 else h2)
        (listening a) (clearedAt a)
  | Tick t =>
      mkAttachment (Debounce.advance t (host a)) (listening a) (clearedAt a)
  end.

Definition run (debounceMs : nat) (a : attachment) (events : list event)
  : attachment :=
  fold_left (step debounceMs) events a.

End Attachment.

(** The edits that get validated: one followed by another less than a
    window later is dropped, the last one is always kept. *)
Fixpoint survivors (debounceMs : nat) (value : string)
         (rest : list (nat * string)) : list string :=
  match rest with
  | [] => [value]
  | (gap, value') :: rest' =>
      ((if debounceMs <=? gap then [value] else [])
       ++ survivors debounceMs value' rest')%list
  end.

(** The attachment holds at most the timer it remembers. *)
Definition owns_its_timer (h : Debounce.host) : Prop :=
  Debounce.timers h = []
  \/ exists handle due,
      Debounce.timers h = [(handle, due)]
      /\ Debounce.validationTimeout h = Some handle.

(** ** The completion and hover providers *)
Module Providers.
Import Zod.

Definition keywords : list string :=
  [ "assign"; "capture"; "endcapture"; "increment"; "decrement"; "if";
    "endif"; "unless"; "endunless"; "elsif"; "else"; "for"; "endfor";
    "break"; "continue"; "limit"; "offset"; "range"; "reversed"; "cols";
    "case"; "endcase"; "when"; "cycle"; "tablerow"; "endtablerow";
    "include"; "render"; "with"; "comment"; "endcomment"; "raw"; "endraw";
    "true"; "false"; "nil"; "and"; "or"; "not"; "in"; "contains";
    "startswith"; "endswith"; "abs"; "append"; "at_least"; "at_most";
    "capitalize"; "ceil"; "compact"; "concat"; "date"; "default";
    "divided_by"; "downcase"; "escape"; "escape_once"; "first"; "floor";
    "join"; "last"; "lstrip"; "map"; "minus"; "modulo"; "newline_to_br";
    "plus"; "prepend"; "remove"; "remove_first"; "replace"; "replace_first";
    "reverse"; "round"; "rstrip"; "size"; "slice"; "sort"; "sort_natural";
    "split"; "strip"; "strip_html"; "strip_newlines"; "times"; "truncate";
    "truncatewords"; "uniq"; "upcase"; "url_decode"; "url_encode" ].

Definition getKeywordSuggestions (position : Monaco.Position)
  : list Completion.CompletionItem :=
  let range :=
    Completion.mkRange (Monaco.lineNumber position) (Monaco.column position)
                       (Monaco.lineNumber position) (Monaco.column position) in
  map (fun keyword =>
         Completion.mkItem keyword Completion.KindKeyword keyword None None
                           range ("2" ++ keyword))
      keywords.

(** [provideCompletionItems]; [schemas] is [model.schemas], [None] when the
    model has none. *)
Definition provideCompletionItems (model : Completion.ITextModel)
           (schemas : option (list (string * ZodType)))
           (position : Monaco.Position) : list Completion.CompletionItem :=
  (getKeywordSuggestions position
   ++ match schemas with
      | Some s => Completion.getSchemaSuggestions model position s
      | None => []
      end)%list.

(** The result of [provideHover]: its range, when the editor finds a word at
    the position, and the text of its one content. *)
Record Hover : Type := mkHover
  { range : option Completion.Range; contents : string }.

(** [provideHover]; [wordAtPosition] is [model.getWordAtPosition(position)]. *)
Definition provideHover (model : Completion.ITextModel)
           (schemas : option (list (string * ZodType)))
           (wordAtPosition : option Completion.IWordAtPosition)
           (position : Monaco.Position) : option Hover :=
  match schemas with
  | None => None
  | Some schemas =>
      match Completion.getVariablePathAtPosition model position with
      | None => None
      | Some variablePath =>
          if String.eqb variablePath "" then None
          else
            let pathSegments := Completion.pathSegments variablePath in
            let variableName := Completion.firstSegment pathSegments in
            match ownProperty schemas variableName with
            | None => None
            | Some schema =>
                match Schema.getTypeInfoFromSchema schema (tl pathSegments) with
                | None => None
                | Some typeInfo =>
                    if String.eqb typeInfo "" then None
                    else
                      Some (mkHover
                              (match wordAtPosition with
                               | Some word =>
                                   Some (Completion.mkRange
                                           (Monaco.lineNumber position)
                                           (Completion.startColumn word)
                                           (Monaco.lineNumber position)
                                           (Completion.endColumn word))
                               | None => None
                               end)
                              ("**Type:** `" ++ typeInfo ++ "`"))
                end
            end
      end
  end.

End Providers.

(** A variable name, and a key after it, as they can be typed in a path. *)
Definition is_name (s : string) : bool :=
  path_grammar s && all_chars not_separator s.

Definition is_key (s : string) : bool :=
  is_segment s && all_chars Completion.is_path_char s.

(** The text before the cursor, as the extractor reads it. *)
Definition textBefore (model : Completion.ITextModel)
           (position : Monaco.Position) : string :=
  substring 0 (Monaco.column position - 1)
            (Completion.getLineContent model (Monaco.lineNumber position)).


(** ** The words of the specification for the renderer and the grammar *)

(** A text between double quotes. *)
Definition quotation_mark : ascii := "034".

Definition double_quoted (v : string) : string :=
  String quotation_mark (v ++ String quotation_mark "").

(** The digits of a decimal numeral without the zeros at its end. *)
Fixpoint significant (numeral : string) : string :=
  match numeral with
  | EmptyString => ""
  | String c rest =>
      match significant rest with
      | EmptyString => if Ascii.eqb c "0" then "" else String c ""
      | kept => String c kept
      end
  end.

(** [Number.MAX_SAFE_INTEGER], 2 ^ 53 - 1: the integers up to it in
    magnitude are Numbers, each identified by no fewer digits than its own
    without the zeros at their end. *)
Definition maxSafeInteger : Z := 9007199254740991.

(** The integer [z] as a Number: zero, or the sign, the digits of the
    magnitude without the zeros at their end and the number of digits of the
    magnitude. *)
Definition integer (z : Z) : JS.number :=
  if (z =? 0)%Z then JS.Zero
  else
    let numeral := JS.decimal (Z.abs_N z) in
    JS.Finite (z <? 0)%Z (significant numeral)
              (Z.of_nat (String.length numeral)).

(** The grammar of a path as the specification spells it: a leading letter
    or underscore, followed by word characters (letters, digits, the
    underscore), hyphens, dots and square brackets. *)
Definition letters : string :=
  "abcdefghijklmnopqrstuvwxyzABCDEFGHIJKLMNOPQRSTUVWXYZ".

Definition decimal_digits : string := "0123456789".

Fixpoint occurs_in (s : string) (c : ascii) : bool :=
  match s with
  | EmptyString => false
  | String x s' => Ascii.eqb c x || occurs_in s' c
  end.

Definition leading_character (c : ascii) : bool :=
  occurs_in letters c || occurs_in "_" c.

Definition word_character (c : ascii) : bool :=
  occurs_in letters c || occurs_in decimal_digits c || occurs_in "_" c.

Definition following_character (c : ascii) : bool :=
  word_character c || occurs_in "-.[]" c.

Definition in_grammar (s : string) : bool :=
  match s with
  | String c rest => leading_character c && all_chars following_character rest
  | EmptyString => false
  end.

(** * Properties *)

(** ** The matcher consumes what the pattern needs *)

Lemma star_consumes {A : Type} (p : ascii -> bool) (k : string -> option A)
      (s : string) (x : A) :
  JS.star p k s = Some x ->
  exists s', k s' = Some x /\ String.length s' <= String.length s.
Proof.
  induction s as [|c s IH]; simpl; intros H.
  - exists ""; auto.
  - destruct (p c).
    + destruct (JS.star p k s) as [y|] eqn:E.
      * injection H as ->. destruct (IH eq_refl) as (s' & Hk & Hl).
        exists s'; split; [assumption | lia].
      * exists (String c s); auto.
    + exists (String c s); auto.
Qed.

Lemma rmatch_consumes {A : Type} (r : JS.regex) :
  forall (s : string) (cap : option string)
         (k : string -> option string -> option A) (x : A),
    JS.rmatch r s cap k = Some x ->
    exists s' cap',
      k s' cap' = Some x /\ String.length s' + JS.minlen r <= String.length s.
Proof.
  induction r as [c|p|r1 IH1 r2 IH2|r1 IH1 r2 IH2|r1 IH1|p|p|r1 IH1|];
    intros s cap k x H; simpl in *.
  - destruct s as [|c' s]; [discriminate|].
    destruct (Ascii.eqb c c'); [|discriminate].
    exists s, cap; simpl; split; [assumption | lia].
  - destruct s as [|c' s]; [discriminate|].
    destruct (p c'); [|discriminate].
    exists s, cap; simpl; split; [assumption | lia].
  - apply IH1 in H as (s1 & cap1 & H & L1).
    apply IH2 in H as (s2 & cap2 & H & L2).
    exists s2, cap2; split; [assumption | lia].
  - destruct (JS.rmatch r1 s cap k) as [y|] eqn:E.
    + injection H as ->. apply IH1 in E as (s1 & cap1 & E & L).
      exists s1, cap1; split; [assumption | lia].
    + apply IH2 in H as (s1 & cap1 & H & L).
      exists s1, cap1; split; [assumption | lia].
  - destruct (JS.rmatch r1 s cap k) as [y|] eqn:E.
    + injection H as ->. apply IH1 in E as (s1 & cap1 & E & L).
      exists s1, cap1; split; [assumption | lia].
    + exists s, cap; split; [assumption | lia].
  - apply star_consumes in H as (s' & H & L).
    exists s', cap; split; [assumption | lia].
  - destruct s as [|c' s]; [discriminate|].
    destruct (p c'); [|discriminate].
    apply star_consumes in H as (s' & H & L).
    exists s', cap; simpl; split; [assumption | lia].
  - apply IH1 in H as (s1 & cap1 & H & L). eauto.
  - destruct s; [|discriminate]. exists "", cap; auto.
Qed.

Lemma matchAt_minlen (r : JS.regex) (s : string) (len : nat)
      (cap : option string) :
  JS.matchAt r s = Some (len, cap) ->
  JS.minlen r <= len /\ len <= String.length s.
Proof.
  unfold JS.matchAt. intros H.
  apply rmatch_consumes in H as (s' & cap' & H & L).
  injection H as <- _. lia.
Qed.

(** The four patterns of the validators and the line break never match the
    empty string, so every turn of a scanning loop moves [lastIndex] on. *)
Lemma scanned_patterns_consume (s : string) (len : nat) (cap : option string) :
  (JS.matchAt Liquid.tagRegex s = Some (len, cap) -> 5 <= len) /\
  (JS.matchAt Liquid.endTagRegex s = Some (len, cap) -> 8 <= len) /\
  (JS.matchAt Liquid.outputStartRegex s = Some (len, cap) -> 2 <= len) /\
  (JS.matchAt Liquid.outputEndRegex s = Some (len, cap) -> 2 <= len) /\
  (JS.matchAt Liquid.lineBreak s = Some (len, cap) -> 1 <= len).
Proof.
  repeat split; intros H; apply matchAt_minlen in H; simpl in H; lia.
Qed.

(** ** Arrays used as stacks *)

Lemma pop_push {A : Type} (l : list A) (x : A) :
  JS.pop (JS.push l x) = Some (x, l).
Proof.
  unfold JS.pop, JS.push. rewrite rev_app_distr. simpl.
  now rewrite rev_involutive.
Qed.

Lemma pop_empty {A : Type} : JS.pop (@nil A) = None.
Proof. reflexivity. Qed.

Lemma pop_None {A : Type} (l : list A) : JS.pop l = None -> l = [].
Proof.
  unfold JS.pop. destruct (rev l) eqn:E; [|discriminate].
  intros _. apply (f_equal (@rev A)) in E. now rewrite rev_involutive in E.
Qed.

Lemma pop_Some {A : Type} (l : list A) (x : A) (r : list A) :
  JS.pop l = Some (x, r) -> l = JS.push r x.
Proof.
  unfold JS.pop, JS.push. destruct (rev l) as [|y t] eqn:E; [discriminate|].
  intros H. injection H as -> <-.
  apply (f_equal (@rev A)) in E. rewrite rev_involutive in E. now subst.
Qed.

Lemma findLastIndex_from_none {A : Type} (p : A -> bool) (l : list A) (i : nat) :
  forallb (fun x => negb (p x)) l = true ->
  JS.findLastIndex_from p l i = None.
Proof.
  revert i. induction l as [|x l IH]; simpl; intros i H; [reflexivity|].
  apply andb_prop in H as [Hx Hl]. rewrite (IH _ Hl).
  now destruct (p x).
Qed.

Lemma findLastIndex_from_last {A : Type} (p : A -> bool)
      (below : list A) (x : A) (above : list A) (i : nat) :
  p x = true ->
  forallb (fun y => negb (p y)) above = true ->
  JS.findLastIndex_from p (below ++ x :: above) i = Some (i + List.length below).
Proof.
  intros Hx Ha. revert i.
  induction below as [|y below IH]; simpl; intros i.
  - rewrite (findLastIndex_from_none _ _ _ Ha), Hx. f_equal; lia.
  - rewrite IH. f_equal; lia.
Qed.

Lemma findLastIndex_from_inv {A : Type} (p : A -> bool) (l : list A) :
  forall i,
    match JS.findLastIndex_from p l i with
    | None => forallb (fun x => negb (p x)) l = true
    | Some j =>
        exists below x above,
          l = (below ++ x :: above)%list /\ j = i + List.length below /\
          p x = true /\ forallb (fun y => negb (p y)) above = true
    end.
Proof.
  induction l as [|x l IH]; simpl; intros i; [reflexivity|].
  specialize (IH (S i)).
  destruct (JS.findLastIndex_from p l (S i)) as [j|].
  - destruct IH as (below & y & above & -> & -> & Hy & Ha).
    exists (x :: below), y, above. simpl. repeat split; auto; lia.
  - destruct (p x) eqn:Hx; simpl.
    + exists [], x, l. simpl. repeat split; auto; lia.
    + assumption.
Qed.

Lemma splice1_middle {A : Type} (below : list A) (x : A) (above : list A) :
  JS.splice1 (List.length below) (below ++ x :: above) = (below ++ above)%list.
Proof.
  unfold JS.splice1. induction below as [|y below IH]; simpl.
  - reflexivity.
  - f_equal. exact IH.
Qed.

(** ** Replaying an output-close marker in the current validator

    The nearest output frame from the top is the one removed, whatever block
    frames lie above it; the frames below and above stay, and no diagnostic
    is added.  With no output frame on the stack the stack stays as it is and
    one diagnostic is added at the marker's column. *)
Lemma replayOutput_close_found (lineNumber index : nat)
      (below : list Validator.frame) (top : Validator.frame)
      (above : list Validator.frame) (ms : list Monaco.IMarkerData) :
  Validator.isOutput top = true ->
  forallb (fun f => negb (Validator.isOutput f)) above = true ->
  Validator.replayOutput lineNumber
    (Validator.mkState (below ++ top :: above) ms)
    (Liquid.mkOutput Liquid.end_ index)
  = Validator.mkState (below ++ above) ms.
Proof.
  intros Ht Ha. unfold Validator.replayOutput, JS.findLastIndex. simpl.
  rewrite (findLastIndex_from_last _ _ _ _ 0 Ht Ha). simpl.
  now rewrite splice1_middle.
Qed.

Lemma replayOutput_close_missing (lineNumber index : nat)
      (stack : list Validator.frame) (ms : list Monaco.IMarkerData) :
  forallb (fun f => negb (Validator.isOutput f)) stack = true ->
  Validator.replayOutput lineNumber (Validator.mkState stack ms)
    (Liquid.mkOutput Liquid.end_ index)
  = Validator.mkState stack
      (ms ++ [Monaco.mkMarker Monaco.Error "Unmatched closing '}}'"
                lineNumber (index + 1) lineNumber (index + 3)]).
Proof.
  intros H. unfold Validator.replayOutput, JS.findLastIndex. simpl.
  now rewrite (findLastIndex_from_none _ _ 0 H).
Qed.

Lemma stack_output_cases (stack : list Validator.frame) :
  forallb (fun f => negb (Validator.isOutput f)) stack = true \/
  exists below top above,
    stack = (below ++ top :: above)%list /\ Validator.isOutput top = true /\
    forallb (fun f => negb (Validator.isOutput f)) above = true.
Proof.
  pose proof (findLastIndex_from_inv Validator.isOutput stack 0) as H.
  destruct (JS.findLastIndex_from Validator.isOutput stack 0).
  - right. destruct H as (below & x & above & -> & _ & Hx & Ha). eauto 6.
  - now left.
Qed.

Lemma reportUnclosed_lifo (st : Validator.state) :
  Validator.reportUnclosed st
  = (Validator.markers st
     ++ map Validator.unclosed (rev (Validator.stack st)))%list.
Proof.
  unfold Validator.reportUnclosed.
  generalize (Validator.markers st) as ms.
  induction (rev (Validator.stack st)) as [|f fs IH]; intros ms; simpl.
  - now rewrite app_nil_r.
  - rewrite IH. unfold JS.push. now rewrite <- app_assoc.
Qed.

Example two_blocks_on_four_lines_clean :
  Validator.validateLiquidSyntax two_blocks_on_four_lines = [].
Proof. vm_compute. reflexivity. Qed.

Example validate_closed_if_with_output :
  Validator.validateLiquidSyntax "{% if x %}{{ y }}{% endif %}" = [].
Proof. vm_compute. reflexivity. Qed.

Example validate_lone_endif :
  Validator.validateLiquidSyntax "{% endif %}"
  = [ Monaco.mkMarker Monaco.Error "Unmatched end tag 'endif'" 1 1 1 12 ].
Proof. vm_compute. reflexivity. Qed.

Example validate_readme_document :
  Validator.validateLiquidSyntax readme_document = [].
Proof. vm_compute. reflexivity. Qed.

(** On one line the frame of a block tag is pushed after the frames of the
    line's output delimiters, whatever their columns. *)
Example validate_unclosed_if_and_output :
  Validator.validateLiquidSyntax "{% if x %}{{ y"
  = [ Monaco.mkMarker Monaco.Error "Unclosed tag 'if'" 1 1 1 11;
      Monaco.mkMarker Monaco.Error "Unclosed output tag '{{'" 1 11 1 13 ].
Proof. vm_compute. reflexivity. Qed.

(** C1. Every well-formed document must validate without diagnostics.  The
    validator replays all opening tags of a line before any of its closing
    tags, so on the well-formed line
    [{% if a %}{% endif %}{% for x in y %}{% endfor %}] the first closing tag
    meets the frame of [for] and the second the frame of [if]: two
    diagnostics are reported. *)
Theorem validate_two_blocks_on_a_line :
  Validator.validateLiquidSyntax two_blocks_on_a_line
  = [ Monaco.mkMarker Monaco.Error "Expected 'endfor' but found 'endif'"
        1 11 1 22;
      Monaco.mkMarker Monaco.Error "Expected 'endif' but found 'endfor'"
        1 38 1 50 ].
Proof. vm_compute. reflexivity. Qed.

(** C2. An output-close marker must remove the nearest output frame and no
    block frame, and add an unmatched-closing diagnostic at its column when
    the stack holds no output frame.  The current validator does so on every
    stack (a stack either holds block frames only, or is some frames, an
    output frame and block frames above it).  The validator of
    [src/index.ts] pops every frame down to the output frame: with the
    frames of [{{] and [if] on the stack, the marker on line 2 empties the
    stack, and the well-formed document
    [{% if x %}{{ product.title / | upcase }}{% endif %}] gets an
    unmatched-end-tag diagnostic, where the current validator keeps the
    block frame and reports nothing. *)
Theorem index_ts_output_close_pops_block_frames :
  (forall lineNumber index below line column len frames ms,
      let blocks := filter (fun f => negb (Validator.isOutput f)) frames in
      Validator.replayOutput lineNumber
        (Validator.mkState
           (below ++ Validator.mkFrame "output" line column len :: blocks) ms)
        (Liquid.mkOutput Liquid.end_ index)
      = Validator.mkState (below ++ blocks) ms)
  /\ (forall lineNumber index frames ms,
         let blocks := filter (fun f => negb (Validator.isOutput f)) frames in
         Validator.replayOutput lineNumber (Validator.mkState blocks ms)
                                (Liquid.mkOutput Liquid.end_ index)
         = Validator.mkState blocks
             (ms ++ [Monaco.mkMarker Monaco.Error "Unmatched closing '}}'"
                       lineNumber (index + 1) lineNumber (index + 3)]))
  /\ IndexTs.replayOutput 2
       (IndexTs.mkState
          [IndexTs.mkFrame "output" 1 11; IndexTs.mkFrame "if" 1 1] [])
       (Liquid.mkOutput Liquid.end_ 11)
     = IndexTs.mkState [] []
  /\ IndexTs.validateLiquidSyntax output_across_lines
     = [ Monaco.mkMarker Monaco.Error "Unmatched end tag 'endif'" 2 14 2 25 ]
  /\ Validator.validateLiquidSyntax output_across_lines = [].
Proof.
  assert (blocks_only : forall frames,
             forallb (fun f => negb (Validator.isOutput f))
                     (filter (fun f => negb (Validator.isOutput f)) frames)
             = true).
  { intros frames. apply forallb_forall. intros f Hf.
    now apply filter_In in Hf. }
  split; [|split; [|repeat split; vm_compute; reflexivity]].
  - intros. apply replayOutput_close_found; [reflexivity | apply blocks_only].
  - intros. apply replayOutput_close_missing, blocks_only.
Qed.

(** C3, as stated: two unclosed diagnostics for [{% if x %}{{ y }}].  There
    are not two. *)
Lemma if_with_closed_output_not_two :
  ~ (exists d1 d2,
        Validator.validateLiquidSyntax "{% if x %}{{ y }}" = [d1; d2]).
Proof. intros (d1 & d2 & H). vm_compute in H. discriminate H. Qed.

(** C3, amended.  For [{% if x %}{{ y }}] validation yields exactly one
    diagnostic, the unclosed [if] at columns 1 to 11 of line 1: the output
    expression is closed on the line and leaves no frame.  Whatever frames
    remain at the end of a pass are reported after the diagnostics found
    during the pass, from the top of the stack down. *)
Theorem if_with_closed_output_one_unclosed :
  Validator.validateLiquidSyntax "{% if x %}{{ y }}"
  = [ Monaco.mkMarker Monaco.Error "Unclosed tag 'if'" 1 1 1 11 ]
  /\ forall st : Validator.state,
       Validator.reportUnclosed st
       = (Validator.markers st
          ++ map Validator.unclosed (rev (Validator.stack st)))%list.
Proof.
  split; [vm_compute; reflexivity | exact reportUnclosed_lifo].
Qed.


(** ** Wrappers *)

Lemma unwrapSchema_not_wrapper (schema : Zod.ZodType) :
  isWrapper (Schema.unwrapSchema schema) = false.
Proof. induction schema; simpl; auto. Qed.

Lemma unwrapSchema_fixed (schema : Zod.ZodType) :
  isWrapper schema = false -> Schema.unwrapSchema schema = schema.
Proof. destruct schema; simpl; intros H; try discriminate H; reflexivity. Qed.

Lemma unwrapSchema_idempotent (schema : Zod.ZodType) :
  Schema.unwrapSchema (Schema.unwrapSchema schema) = Schema.unwrapSchema schema.
Proof. apply unwrapSchema_fixed, unwrapSchema_not_wrapper. Qed.

Lemma unwrapSchema_wrap (ws : list wrapper) (schema : Zod.ZodType) :
  Schema.unwrapSchema (wrap ws schema) = Schema.unwrapSchema schema.
Proof. induction ws as [|[] ws IH]; simpl; auto. Qed.

Lemma arrayElement_not_wrapper (schema : Zod.ZodType) :
  isWrapper (Schema.arrayElement (Schema.unwrapSchema schema)) = false.
Proof.
  pose proof (unwrapSchema_not_wrapper schema) as H.
  destruct (Schema.unwrapSchema schema); simpl in *; auto.
  apply unwrapSchema_not_wrapper.
Qed.

Lemma navigateStep_unwrap (schema : Zod.ZodType) (segment : string) :
  Schema.navigateStep (Schema.unwrapSchema schema) segment
  = Schema.navigateStep schema segment.
Proof. unfold Schema.navigateStep. now rewrite unwrapSchema_idempotent. Qed.

Lemma navigateLoop_unwrap (schema : Zod.ZodType) (path : list string) :
  Schema.navigateLoop (Schema.unwrapSchema schema) path
  = Schema.navigateLoop schema path.
Proof.
  destruct path as [|segment rest]; simpl.
  - now rewrite unwrapSchema_idempotent.
  - now rewrite navigateStep_unwrap.
Qed.

Lemma navigateLoop_result (path : list string) :
  forall schema result,
    Schema.navigateLoop schema path = Some result -> isWrapper result = false.
Proof.
  induction path as [|segment rest IH]; simpl; intros schema result H.
  - injection H as <-. apply unwrapSchema_not_wrapper.
  - destruct (Schema.navigateStep schema segment) as [next|]; [|discriminate].
    eapply IH; eassumption.
Qed.

Lemma navigateLoop_app (p q : list string) :
  forall schema,
    Schema.navigateLoop schema (p ++ q)
    = match Schema.navigateLoop schema p with
      | Some result => Schema.navigateLoop result q
      | None => None
      end.
Proof.
  induction p as [|segment rest IH]; simpl; intros schema.
  - now rewrite navigateLoop_unwrap.
  - destruct (Schema.navigateStep schema segment) as [next|]; auto.
Qed.

Lemma navigateSchema_app (schema : Zod.ZodType) (p q : list string) :
  Schema.navigateSchema schema (p ++ q)
  = match Schema.navigateSchema schema p with
    | Some result => Schema.navigateSchema result q
    | None => None
    end.
Proof.
  unfold Schema.navigateSchema. rewrite navigateLoop_app.
  destruct (Schema.navigateLoop (Schema.unwrapSchema schema) p); auto.
  now rewrite navigateLoop_unwrap.
Qed.

(** The function unfolds to the chain of [instanceof] tests on the unwrapped
    descriptor, as it is written. *)
Lemma getTypeString_eq (schema : Zod.ZodType) :
  Schema.getTypeString schema
  = match Schema.unwrapSchema schema with
    | Zod.ZodArray element => "Array<" ++ Schema.getTypeString element ++ ">"
    | Zod.ZodObject _ => "Object"
    | Zod.ZodString => "String"
    | Zod.ZodNumber => "Number"
    | Zod.ZodBoolean => "Boolean"
    | Zod.ZodDate => "Date"
    | Zod.ZodLiteral values => Schema.literalString values
    | Zod.ZodEnum entries =>
        JS.join " | " (map (fun e => Schema.quoted (snd e)) entries)
    | Zod.ZodUnion options =>
        JS.join " | " (map Schema.getTypeString options)
    | _ => "Unknown"
    end.
Proof. destruct schema; reflexivity. Qed.

Lemma getTypeString_unwrap (schema : Zod.ZodType) :
  Schema.getTypeString (Schema.unwrapSchema schema)
  = Schema.getTypeString schema.
Proof.
  rewrite (getTypeString_eq (Schema.unwrapSchema schema)).
  rewrite unwrapSchema_idempotent. symmetry. apply getTypeString_eq.
Qed.

Lemma getTypeString_wrap (ws : list wrapper) (schema : Zod.ZodType) :
  Schema.getTypeString (wrap ws schema) = Schema.getTypeString schema.
Proof.
  rewrite <- (getTypeString_unwrap (wrap ws schema)), unwrapSchema_wrap.
  apply getTypeString_unwrap.
Qed.

Lemma navigateSchema_wrap (ws : list wrapper) (schema : Zod.ZodType)
      (path : list string) :
  Schema.navigateSchema (wrap ws schema) path
  = Schema.navigateSchema schema path.
Proof. unfold Schema.navigateSchema. now rewrite unwrapSchema_wrap. Qed.

Example navigate_user_schema :
  let user :=
    Zod.ZodObject [("name", Zod.ZodString);
                   ("tags", Zod.ZodArray Zod.ZodString)] in
  Schema.navigateSchema user ["name"] = Some Zod.ZodString
  /\ Schema.navigateSchema user ["tags"; "0"] = Some Zod.ZodString
  /\ Schema.navigateSchema user ["missing"] = None.
Proof. repeat split. Qed.

(** C5. Neither the resolver nor the renderer inspects a wrapper: what
    [unwrapSchema] returns is no wrapper, the descriptor a resolution step
    inspects is no wrapper, the resolver's result is no wrapper, and a chain
    of Optional/Nullable/WithDefault wrappers around a descriptor (an Object
    in particular) changes neither the resolution of a path nor the
    rendering. *)
Theorem wrappers_are_transparent :
  (forall schema, isWrapper (Schema.unwrapSchema schema) = false)
  /\ (forall schema,
         isWrapper (Schema.arrayElement (Schema.unwrapSchema schema)) = false)
  /\ (forall schema path,
         match Schema.navigateSchema schema path with
         | Some result => isWrapper result = false
         | None => True
         end)
  /\ (forall ws shape path,
         Schema.navigateSchema (wrap ws (Zod.ZodObject shape)) path
         = Schema.navigateSchema (Zod.ZodObject shape) path)
  /\ (forall ws schema path,
         Schema.navigateSchema (wrap ws schema) path
         = Schema.navigateSchema schema path)
  /\ (forall ws schema segment,
         Schema.navigateStep (wrap ws schema) segment
         = Schema.navigateStep schema segment)
  /\ (forall ws schema,
         Schema.getTypeString (wrap ws schema) = Schema.getTypeString schema).
Proof.
  repeat split.
  - apply unwrapSchema_not_wrapper.
  - apply arrayElement_not_wrapper.
  - intros schema path.
    destruct (Schema.navigateSchema schema path) as [result|] eqn:E; auto.
    eapply navigateLoop_result; exact E.
  - intros. apply navigateSchema_wrap.
  - intros. apply navigateSchema_wrap.
  - intros. rewrite <- (navigateStep_unwrap (wrap ws schema)).
    rewrite unwrapSchema_wrap. apply navigateStep_unwrap.
  - intros. apply getTypeString_wrap.
Qed.

(** C6. If the one-segment path [a] resolves against [D] to [R], then the
    two-segment path [a, b] against [D] resolves as [b] does against [R]. *)
Theorem resolution_composes (D : Zod.ZodType) (a b : string) (R : Zod.ZodType) :
  Schema.navigateSchema D [a] = Some R ->
  Schema.navigateSchema D [a; b] = Schema.navigateSchema R [b].
Proof.
  intros H. change [a; b] with ([a] ++ [b])%list.
  now rewrite navigateSchema_app, H.
Qed.

Lemma resolution_composes_witness :
  Schema.navigateSchema
    (Zod.ZodObject
       [("a", Zod.ZodOptional
                (Zod.ZodArray
                   (Zod.ZodNullable (Zod.ZodObject [("b", Zod.ZodString)]))))])
    ["a"]
  = Some (Zod.ZodArray (Zod.ZodNullable (Zod.ZodObject [("b", Zod.ZodString)])))
  /\ Schema.navigateSchema
       (Zod.ZodObject
          [("a", Zod.ZodOptional
                   (Zod.ZodArray
                      (Zod.ZodNullable (Zod.ZodObject [("b", Zod.ZodString)]))))])
       ["a"; "b"]
     = Schema.navigateSchema
         (Zod.ZodArray (Zod.ZodNullable (Zod.ZodObject [("b", Zod.ZodString)])))
         ["b"].
Proof.
  split; [reflexivity | apply resolution_composes; reflexivity].
Defined.

(** *** Joining, quoting and the text of a number *)

Lemma join_concat (sep : string) (l : list string) :
  JS.join sep l = String.concat sep l.
Proof.
  induction l as [|x l IH]; [reflexivity|].
  destruct l as [|y l]; [reflexivity|].
  cbn [JS.join String.concat] in *. now rewrite IH.
Qed.

Lemma quoted_double_quoted (v : string) :
  Schema.quoted v = double_quoted v.
Proof. reflexivity. Qed.

Lemma usize_nb_digits (d : Decimal.uint) :
  DecimalPos.Unsigned.usize d = N.of_nat (Decimal.nb_digits d).
Proof.
  induction d; cbn [DecimalPos.Unsigned.usize Decimal.nb_digits];
    rewrite ?IHd; lia.
Qed.

Lemma to_uint_normal (n : N) : Decimal.unorm (N.to_uint n) = N.to_uint n.
Proof.
  rewrite <- DecimalN.Unsigned.to_of. now rewrite DecimalN.Unsigned.of_to.
Qed.

Lemma of_lu_lower (u w : Decimal.uint) :
  (1 <= DecimalPos.Unsigned.of_lu w)%N ->
  (10 ^ N.of_nat (Decimal.nb_digits u)
   <= DecimalPos.Unsigned.of_lu (Decimal.revapp u w))%N.
Proof.
  intros H. rewrite DecimalPos.Unsigned.of_lu_revapp, usize_nb_digits. nia.
Qed.

(** A natural number below [10 ^ m] is written with at most [m] digits. *)
Lemma nb_digits_bound (n : N) (m : nat) :
  (n < 10 ^ N.of_nat m)%N -> Decimal.nb_digits (N.to_uint n) <= Nat.max 1 m.
Proof.
  intros H. pose proof (to_uint_normal n) as Hn.
  pose proof (DecimalN.Unsigned.of_to n) as Hv.
  unfold N.of_uint in Hv. rewrite DecimalPos.Unsigned.of_uint_alt in Hv.
  destruct (N.to_uint n) as [|u|u|u|u|u|u|u|u|u|u];
    cbn [Decimal.nb_digits]; [lia| |..].
  { unfold Decimal.unorm in Hn. cbn [Decimal.nzhead] in Hn.
    destruct (Decimal.nzhead u) eqn:E; try discriminate.
    - injection Hn as Hn. subst u. cbn [Decimal.nb_digits]. lia.
    - exfalso. injection Hn as Hn. subst.
      now apply (DecimalFacts.nzhead_nonzero u u). }
  all: unfold Decimal.rev in Hv; cbn [Decimal.revapp] in Hv;
    match type of Hv with
    | DecimalPos.Unsigned.of_lu (Decimal.revapp ?u ?w) = _ =>
        pose proof (of_lu_lower u w) as L;
        cbn [DecimalPos.Unsigned.of_lu] in L; specialize (L ltac:(lia));
        rewrite Hv in L;
        assert (N.of_nat (Decimal.nb_digits u) < N.of_nat m)%N
          by (apply (N.pow_lt_mono_r_iff 10); lia);
        lia
    end.
Qed.

Lemma length_string_of_uint (d : Decimal.uint) :
  String.length (NilEmpty.string_of_uint d) = Decimal.nb_digits d.
Proof.
  induction d; cbn [NilEmpty.string_of_uint String.length Decimal.nb_digits];
    congruence.
Qed.

Lemma length_decimal_pos (p : positive) :
  JS.decimal (Npos p) = NilEmpty.string_of_uint (Pos.to_uint p)
  /\ String.length (JS.decimal (Npos p)) = Decimal.nb_digits (Pos.to_uint p).
Proof.
  unfold JS.decimal. cbn [N.to_uint].
  pose proof (DecimalPos.Unsigned.to_uint_nonnil p) as H.
  destruct (Pos.to_uint p) eqn:E; try (now elim H);
    (split; [reflexivity | apply length_string_of_uint]).
Qed.

Lemma significant_length (numeral : string) :
  String.length (significant numeral) <= String.length numeral.
Proof.
  induction numeral as [|c rest IH]; [constructor|].
  cbn [significant]. destruct (significant rest).
  - destruct (Ascii.eqb c "0"); cbn [String.length]; lia.
  - cbn [String.length] in *. lia.
Qed.

(** The digits kept and the zeros taken away make the numeral. *)
Lemma significant_zeros (numeral : string) :
  significant numeral
  ++ JS.zeros (String.length numeral - String.length (significant numeral))
  = numeral.
Proof.
  induction numeral as [|c rest IH]; [reflexivity|].
  pose proof (significant_length rest) as L.
  cbn [significant]. destruct (significant rest) as [|k kept] eqn:E.
  - cbn [String.length append] in IH. rewrite Nat.sub_0_r in IH.
    destruct (Ascii.eqb c "0") eqn:Ec.
    + apply Ascii.eqb_eq in Ec. subst c.
      cbn [String.length append Nat.sub JS.zeros]. now rewrite IH.
    + cbn [String.length append Nat.sub]. now rewrite Nat.sub_0_r, IH.
  - cbn [String.length append] in *.
    replace (S (String.length rest) - S (S (String.length kept)))
      with (String.length rest - S (String.length kept)) by lia.
    now rewrite IH.
Qed.

(** The magnitude of a safe integer prints as its numeral. *)
Lemma magnitude_of_safe_integer (p : positive) :
  (Zpos p <= maxSafeInteger)%Z ->
  JS.magnitudeToString
    (significant (JS.decimal (Npos p)))
    (Z.of_nat (String.length (JS.decimal (Npos p))))
  = NilEmpty.string_of_uint (Pos.to_uint p).
Proof.
  intros H. destruct (length_decimal_pos p) as [Ed El].
  assert (B : Decimal.nb_digits (N.to_uint (Npos p)) <= Nat.max 1 16).
  { apply nb_digits_bound.
    change (10 ^ N.of_nat 16)%N with 10000000000000000%N.
    unfold maxSafeInteger in H. lia. }
  cbn [N.to_uint] in B. rewrite <- El in B.
  pose proof (significant_length (JS.decimal (Npos p))) as L.
  pose proof (significant_zeros (JS.decimal (Npos p))) as Z.
  unfold JS.magnitudeToString.
  replace ((-5 <=? Z.of_nat (String.length (JS.decimal (Npos p))))
           && (Z.of_nat (String.length (JS.decimal (Npos p))) <=? 21))%Z
    with true
    by (symmetry; apply andb_true_intro; split; apply Z.leb_le; lia).
  replace (Z.of_nat (String.length (significant (JS.decimal (Npos p))))
           <=? Z.of_nat (String.length (JS.decimal (Npos p))))%Z
    with true by (symmetry; apply Z.leb_le; lia).
  rewrite <- Nat2Z.inj_sub, Nat2Z.id by exact L.
  now rewrite Z, Ed.
Qed.

Lemma integer_toString (z : Z) :
  (Z.abs z <= maxSafeInteger)%Z ->
  JS.numberToString (integer z) = NilZero.string_of_int (Z.to_int z).
Proof.
  destruct z as [|p|p]; intros H; [reflexivity| |].
  - unfold integer.
    change (Z.pos p =? 0)%Z with false. change (Z.pos p <? 0)%Z with false.
    cbv iota. change (Z.abs_N (Z.pos p)) with (Npos p).
    cbn [JS.numberToString append].
    rewrite (magnitude_of_safe_integer p H).
    destruct (length_decimal_pos p) as [Ed _]. unfold JS.decimal in Ed.
    cbn [N.to_uint] in Ed. cbn [Z.to_int NilZero.string_of_int].
    now rewrite Ed.
  - unfold integer.
    change (Z.neg p =? 0)%Z with false. change (Z.neg p <? 0)%Z with true.
    cbv iota. change (Z.abs_N (Z.neg p)) with (Npos p).
    cbn [JS.numberToString append].
    rewrite (magnitude_of_safe_integer p H).
    destruct (length_decimal_pos p) as [Ed _]. unfold JS.decimal in Ed.
    cbn [N.to_uint] in Ed. cbn [Z.to_int NilZero.string_of_int].
    now rewrite Ed.
Qed.

(** C7. The renderer maps the unwrapped descriptor to its display string:
    Object, String, Number, Boolean and Date to their names, an array to
    [Array<] the rendering of its element [>], a literal to its first value,
    between double quotes when it is a string and as JavaScript prints it
    otherwise (a safe integer as its decimal numeral, the other Numbers with
    a fraction or an exponent as [String] gives them, a BigInt as its
    numeral, a boolean, [null] and [undefined] as their names), an
    enumeration to its values between double quotes joined with [ | ], a
    union to the renderings of its options joined with [ | ], any other
    class to Unknown; wrappers are unwrapped at every level. *)
Theorem getTypeString_table :
  (forall shape, Schema.getTypeString (Zod.ZodObject shape) = "Object")
  /\ Schema.getTypeString Zod.ZodString = "String"
  /\ Schema.getTypeString Zod.ZodNumber = "Number"
  /\ Schema.getTypeString Zod.ZodBoolean = "Boolean"
  /\ Schema.getTypeString Zod.ZodDate = "Date"
  /\ (forall T,
         Schema.getTypeString (Zod.ZodArray T)
         = "Array<" ++ Schema.getTypeString T ++ ">")
  /\ (forall v rest,
         Schema.getTypeString (Zod.ZodLiteral (Zod.LString v :: rest))
         = double_quoted v)
  /\ (forall z rest,
         (Z.abs z <= maxSafeInteger)%Z ->
         Schema.getTypeString (Zod.ZodLiteral (Zod.LNumber (integer z) :: rest))
         = NilZero.string_of_int (Z.to_int z))
  /\ (forall rest,
         Schema.getTypeString
           (Zod.ZodLiteral
              (Zod.LNumber (integer 1000000000000000000000) :: rest))
         = "1e+21"
         /\ Schema.getTypeString
              (Zod.ZodLiteral (Zod.LNumber (JS.Finite false "15" 1) :: rest))
            = "1.5"
         /\ Schema.getTypeString
              (Zod.ZodLiteral (Zod.LNumber (JS.Finite true "1" (-5)) :: rest))
            = "-0.000001"
         /\ Schema.getTypeString
              (Zod.ZodLiteral (Zod.LNumber (JS.Finite false "1" (-6)) :: rest))
            = "1e-7"
         /\ Schema.getTypeString
              (Zod.ZodLiteral
                 (Zod.LNumber (JS.Finite false "12345" 26) :: rest))
            = "1.2345e+25"
         /\ Schema.getTypeString
              (Zod.ZodLiteral
                 (Zod.LNumber (JS.Finite false "1152921504606847" 19) :: rest))
            = "1152921504606847000"
         /\ Schema.getTypeString (Zod.ZodLiteral (Zod.LNumber JS.NaN :: rest))
            = "NaN"
         /\ Schema.getTypeString
              (Zod.ZodLiteral (Zod.LNumber (JS.Infinity true) :: rest))
            = "-Infinity")
  /\ (forall n rest,
         Schema.getTypeString (Zod.ZodLiteral (Zod.LBigInt n :: rest))
         = NilZero.string_of_int (Z.to_int n))
  /\ (forall b rest,
         Schema.getTypeString (Zod.ZodLiteral (Zod.LBoolean b :: rest))
         = if b then "true" else "false")
  /\ (forall rest,
         Schema.getTypeString (Zod.ZodLiteral (Zod.LNull :: rest)) = "null")
  /\ (forall rest,
         Schema.getTypeString (Zod.ZodLiteral (Zod.LUndefined :: rest))
         = "undefined")
  /\ Schema.getTypeString (Zod.ZodLiteral []) = "undefined"
  /\ (forall entries,
         Schema.getTypeString (Zod.ZodEnum entries)
         = String.concat " | "
             (map (fun e => double_quoted (snd e)) entries))
  /\ Schema.getTypeString (Zod.ZodEnum [("A", "a"); ("B", "b c"); ("C", "")])
     = String quotation_mark
         ("a" ++ String quotation_mark
            (" | " ++ String quotation_mark
               ("b c" ++ String quotation_mark
                  (" | " ++ String quotation_mark
                     (String quotation_mark "")))))
  /\ (forall options,
         Schema.getTypeString (Zod.ZodUnion options)
         = String.concat " | " (map Schema.getTypeString options))
  /\ Schema.getTypeString
       (Zod.ZodUnion [Zod.ZodString; Zod.ZodArray Zod.ZodNumber; Zod.ZodOther])
     = "String | Array<Number> | Unknown"
  /\ Schema.getTypeString Zod.ZodOther = "Unknown"
  /\ (forall ws schema,
         Schema.getTypeString (wrap ws schema) = Schema.getTypeString schema)
  /\ (forall ws T,
         Schema.getTypeString (Zod.ZodArray (wrap ws T))
         = "Array<" ++ Schema.getTypeString T ++ ">")
  /\ (forall ws options,
         Schema.getTypeString (Zod.ZodUnion (map (wrap ws) options))
         = Schema.getTypeString (Zod.ZodUnion options)).
Proof.
  repeat match goal with |- _ /\ _ => split end;
    try match goal with
        | |- forall entries, _ = String.concat _ (map _ entries) =>
            intros entries; rewrite getTypeString_eq;
            cbn [Schema.unwrapSchema]; apply join_concat
        | |- forall options, _ = String.concat _ (map _ options) =>
            intros options; rewrite getTypeString_eq;
            cbn [Schema.unwrapSchema]; apply join_concat
        | |- forall v rest, _ = double_quoted v =>
            intros v rest; rewrite getTypeString_eq;
            cbn [Schema.unwrapSchema Schema.literalString hd];
            apply quoted_double_quoted
        | |- _ = _ => reflexivity
        | |- forall _, _ = _ => intro; reflexivity
        | |- forall _ _, _ = _ => do 2 intro; reflexivity
        end.
  - intros z rest H. rewrite getTypeString_eq.
    cbn [Schema.unwrapSchema Schema.literalString hd Schema.toString].
    now apply integer_toString.
  - intros rest. repeat split; reflexivity.
  - intros. apply getTypeString_wrap.
  - intros. rewrite getTypeString_eq. simpl. now rewrite getTypeString_wrap.
  - intros. rewrite !getTypeString_eq. simpl. rewrite map_map.
    f_equal. apply map_ext. intros. apply getTypeString_wrap.
Qed.

Example getTypeString_nested :
  Schema.getTypeString
    (Zod.ZodOptional
       (Zod.ZodArray
          (Zod.ZodNullable
             (Zod.ZodUnion
                [ Zod.ZodLiteral [Zod.LNumber (integer (-5))];
                  Zod.ZodEnum [("a", "a"); ("b", "b")];
                  Zod.ZodDefault (Zod.ZodLiteral [Zod.LString "x"]) ]))))
  = "Array<-5 | " ++ double_quoted "a" ++ " | " ++ double_quoted "b" ++ " | "
    ++ double_quoted "x" ++ ">".
Proof. vm_compute. reflexivity. Qed.

(** ** The path extractor *)

Lemma suffix_of_app (t s : string) :
  suffix_of t s <-> exists pre, s = pre ++ t.
Proof.
  split.
  - induction 1 as [s|c s t _ [pre ->]].
    + now exists "".
    + now exists (String c pre).
  - intros [pre ->]. induction pre as [|c pre IH]; simpl.
    + constructor.
    + now constructor.
Qed.

Lemma suffix_of_length (t s : string) :
  suffix_of t s -> String.length t <= String.length s.
Proof. induction 1; simpl; lia. Qed.

Lemma substring_all (s : string) : substring 0 (String.length s) s = s.
Proof. induction s as [|c s IH]; simpl; [reflexivity | now rewrite IH]. Qed.

Lemma star_to_end {A : Type} (p : ascii -> bool) (k : string -> option A)
      (s : string) :
  (forall c t, k (String c t) = None) ->
  JS.star p k s = if all_chars p s then k "" else None.
Proof.
  intros Hk. induction s as [|c s IH]; simpl; [reflexivity|].
  destruct (p c); simpl; [|apply Hk].
  rewrite IH. destruct (all_chars p s); [|apply Hk].
  destruct (k "") eqn:E; [reflexivity | apply Hk].
Qed.

Lemma matchAt_variablePath (s : string) :
  JS.matchAt Completion.variablePathRegex s
  = if path_grammar s then Some (String.length s, None) else None.
Proof.
  unfold JS.matchAt, Completion.variablePathRegex. simpl.
  destruct s as [|c rest]; simpl; [reflexivity|].
  destruct (Completion.is_path_start c); simpl; [|reflexivity].
  rewrite star_to_end by reflexivity.
  destruct (all_chars Completion.is_path_char rest); reflexivity.
Qed.

Lemma search_variablePath (s : string) :
  forall idx,
    match JS.search Completion.variablePathRegex s idx with
    | Some m =>
        suffix_of (JS.matched m) s /\ path_grammar (JS.matched m) = true /\
        forall q, suffix_of q s -> path_grammar q = true ->
                  suffix_of q (JS.matched m)
    | None => forall q, suffix_of q s -> path_grammar q = false
    end.
Proof.
  induction s as [|c s IH]; intros idx.
  - simpl. intros q H. inversion H; subst. reflexivity.
  - cbn [JS.search]. rewrite matchAt_variablePath.
    destruct (path_grammar (String c s)) eqn:G.
    + cbn [JS.matched]. rewrite substring_all.
      repeat split; [constructor | assumption | auto].
    + specialize (IH (S idx)).
      destruct (JS.search Completion.variablePathRegex s (S idx)) as [m|].
      * destruct IH as (Hs & Hg & Hmax). repeat split.
        -- now constructor.
        -- assumption.
        -- intros q Hq Gq. inversion Hq; subst.
           ++ congruence.
           ++ auto.
      * intros q Hq. inversion Hq; subst; auto.
Qed.

(** Splitting on the separator pattern is cutting at every separator. *)
Lemma matchAt_pathSeparator (c : ascii) (s : string) :
  JS.matchAt Completion.pathSeparator (String c s)
  = if is_separator c then Some (1, None) else None.
Proof.
  unfold JS.matchAt, Completion.pathSeparator, is_separator.
  cbn [JS.rmatch String.length].
  replace (S (String.length s) - String.length s) with 1 by lia.
  rewrite (Ascii.eqb_sym "." c), (Ascii.eqb_sym "[" c), (Ascii.eqb_sym "]" c).
  destruct (Ascii.eqb c "."); [reflexivity|].
  destruct (Ascii.eqb c "["); [reflexivity|].
  destruct (Ascii.eqb c "]"); reflexivity.
Qed.

Lemma split_pathSeparator (s : string) :
  forall cur, JS.split_go Completion.pathSeparator s 0 cur = pieces s cur.
Proof.
  induction s as [|c s IH]; intros cur; [reflexivity|].
  cbn [JS.split_go pieces]. rewrite matchAt_pathSeparator.
  destruct (is_separator c).
  - destruct s as [|c' s']; [reflexivity|].
    now rewrite IH.
  - apply IH.
Qed.

Lemma pieces_head (s : string) :
  forall cur,
    exists rest, pieces s cur = JS.rev_string cur (until_separator s) :: rest.
Proof.
  induction s as [|c s IH]; intros cur; simpl.
  - now exists [].
  - destruct (is_separator c).
    + now exists (pieces s []).
    + destruct (IH (c :: cur)) as [rest ->]. now exists rest.
Qed.

Lemma path_start_not_separator (c : ascii) :
  Completion.is_path_start c = true -> is_separator c = false.
Proof.
  destruct c as [[] [] [] [] [] [] [] []]; vm_compute; congruence.
Qed.

(** The classes of the pattern are those of the grammar. *)
Lemma leading_character_class (c : ascii) :
  leading_character c = Completion.is_path_start c.
Proof. destruct c as [[] [] [] [] [] [] [] []]; reflexivity. Qed.

Lemma following_character_class (c : ascii) :
  following_character c = Completion.is_path_char c.
Proof. destruct c as [[] [] [] [] [] [] [] []]; reflexivity. Qed.

Lemma grammar_agrees (s : string) : in_grammar s = path_grammar s.
Proof.
  destruct s as [|c rest]; [reflexivity|].
  cbn [in_grammar path_grammar]. rewrite leading_character_class. f_equal.
  induction rest as [|x rest IH]; [reflexivity|].
  cbn [all_chars]. now rewrite following_character_class, IH.
Qed.

(** C8. The extractor returns the longest suffix of the text before the
    cursor that matches the grammar, a leading letter or underscore followed
    by word characters, hyphens, dots and square brackets (every matching
    suffix is a suffix of the one returned), and nothing when no suffix
    matches.  Splitting the
    returned string at dots and square brackets and dropping the empty
    pieces gives a non-empty path; its first segment is the key looked up in
    the schema set and the segments after it are the path handed to the
    resolver. *)
Theorem path_extractor_longest_suffix
        (model : Completion.ITextModel) (position : Monaco.Position) :
  let text :=
    substring 0 (Monaco.column position - 1)
              (Completion.getLineContent model (Monaco.lineNumber position)) in
  match Completion.getVariablePathAtPosition model position with
  | Some p =>
      (exists pre, text = pre ++ p)
      /\ in_grammar p = true
      /\ (forall pre q,
             text = pre ++ q -> in_grammar q = true ->
             (exists r, p = r ++ q) /\ String.length q <= String.length p)
      /\ Completion.pathSegments p
         = filter (fun segment => negb (String.eqb segment "")) (pieces p [])
      /\ exists rest,
          Completion.pathSegments p = until_separator p :: rest
          /\ until_separator p <> ""
          /\ forall schemas,
              Completion.getSchemaSuggestions model position schemas
              = match Zod.ownProperty schemas (until_separator p) with
                | Some schema =>
                    Completion.getSuggestionsFromSchema schema rest
                      (Completion.mkRange
                         (Monaco.lineNumber position)
                         (Completion.startColumn
                            (Completion.getWordUntilPosition model position))
                         (Monaco.lineNumber position)
                         (Completion.endColumn
                            (Completion.getWordUntilPosition model position)))
                | None => []
                end
  | None => forall pre q, text = pre ++ q -> in_grammar q = false
  end.
Proof.
  intros text.
  destruct (Completion.getVariablePathAtPosition model position) as [p|] eqn:E.
  - pose proof E as E0.
    unfold Completion.getVariablePathAtPosition, JS.exec in E.
    fold text in E.
    pose proof (search_variablePath text 0) as H.
    destruct (JS.search Completion.variablePathRegex text 0) as [m|];
      [|discriminate].
    injection E as <-. destruct H as (Hs & Hg & Hmax).
    assert (Hseg : Completion.pathSegments (JS.matched m)
                   = filter (fun segment => negb (String.eqb segment ""))
                            (pieces (JS.matched m) [])).
    { unfold Completion.pathSegments, JS.split.
      now rewrite split_pathSeparator. }
    split; [now apply suffix_of_app|].
    split; [now rewrite grammar_agrees|].
    split.
    { intros pre q Ht Gq. rewrite grammar_agrees in Gq.
      assert (Hq : suffix_of q (JS.matched m)).
      { apply Hmax; [apply suffix_of_app; eauto | assumption]. }
      split; [now apply suffix_of_app | now apply suffix_of_length]. }
    split; [assumption|].
    destruct (JS.matched m) as [|c tail] eqn:Em; [discriminate|].
    simpl in Hg. apply andb_prop in Hg as [Hc _].
    pose proof (path_start_not_separator c Hc) as Hsep.
    destruct (pieces_head (String c tail) []) as [rest Hp].
    assert (Hu : until_separator (String c tail)
                 = String c (until_separator tail)).
    { simpl. now rewrite Hsep. }
    assert (Hfirst : Completion.pathSegments (String c tail)
                     = until_separator (String c tail)
                         :: filter (fun segment => negb (String.eqb segment ""))
                                   rest).
    { rewrite Hseg, Hp. cbn [JS.rev_string]. rewrite Hu. reflexivity. }
    eexists. split; [exact Hfirst|].
    split; [rewrite Hu; discriminate|].
    intros schemas. unfold Completion.getSchemaSuggestions.
    rewrite E0. cbn [negb String.eqb]. rewrite Hfirst. reflexivity.
  - unfold Completion.getVariablePathAtPosition, JS.exec in E.
    fold text in E.
    pose proof (search_variablePath text 0) as H.
    destruct (JS.search Completion.variablePathRegex text 0) as [m|];
      [discriminate|].
    intros pre q Ht. rewrite grammar_agrees. apply H.
    apply suffix_of_app. eauto.
Qed.

Example path_extractor_example :
  Completion.getVariablePathAtPosition
    (Completion.mkModel (fun _ => "{{ order.cart[0].pro }}")
                        (fun _ => Completion.mkWord "pro" 18 21))
    (Monaco.mkPosition 1 21)
  = Some "order.cart[0].pro"
  /\ Completion.pathSegments "order.cart[0].pro" = ["order"; "cart"; "0"; "pro"]
  /\ Completion.getVariablePathAtPosition
       (Completion.mkModel (fun _ => "{{ 9my-variable_2.x")
                           (fun _ => Completion.mkWord "x" 19 20))
       (Monaco.mkPosition 1 20)
     = Some "my-variable_2.x"
  /\ in_grammar "my-variable_2.x" = true
  /\ in_grammar "9my-variable_2.x" = false
  /\ in_grammar "a b" = false.
Proof. repeat split; vm_compute; reflexivity. Qed.

(** ** Debounced validation *)

Lemma change_when_idle (debounceMs : nat) (h : Debounce.host)
      (gap : nat) (value : string) :
  Debounce.timers h = [] ->
  Debounce.validationTimeout h = None ->
  let h' := Debounce.change debounceMs h (Debounce.now h + gap) value in
  pending debounceMs h'
  /\ Debounce.passes h' = Debounce.passes h
  /\ Debounce.text h' = value.
Proof.
  destruct h as [n nh tm tx vt ps]. simpl. intros -> ->.
  unfold Debounce.change, Debounce.advance, Debounce.onDidChangeContent.
  simpl. repeat split. now exists nh.
Qed.

Lemma change_when_pending (debounceMs : nat) (h : Debounce.host)
      (gap : nat) (value : string) :
  pending debounceMs h ->
  gap < debounceMs ->
  let h' := Debounce.change debounceMs h (Debounce.now h + gap) value in
  pending debounceMs h'
  /\ Debounce.passes h' = Debounce.passes h
  /\ Debounce.text h' = value.
Proof.
  destruct h as [n nh tm tx vt ps]. intros (handle & Ht & Hv) Hgap.
  simpl in Ht, Hv. subst tm vt.
  assert (E : (n + debounceMs <=? n + gap) = false)
    by (apply Nat.leb_gt; lia).
  unfold Debounce.change, Debounce.advance, Debounce.onDidChangeContent.
  cbn [Debounce.timers Debounce.now filter snd fst]. rewrite E.
  cbn. rewrite Nat.eqb_refl. cbn.
  repeat split. now exists nh.
Qed.

Lemma last_default {A : Type} (l : list A) :
  forall (b d d' : A), last (b :: l) d = last (b :: l) d'.
Proof.
  induction l as [|c l IH]; intros b d d'; [reflexivity|].
  change (last (c :: l) d = last (c :: l) d'). apply IH.
Qed.

Lemma last_cons {A : Type} (l : list A) (a d : A) :
  last (a :: l) d = last l a.
Proof. destruct l as [|b l]; [reflexivity | apply (last_default (b :: l))]. Qed.

Lemma burst_when_pending (debounceMs : nat) (rest : list (nat * string)) :
  forall (h : Debounce.host),
    pending debounceMs h ->
    Forall (fun e => fst e < debounceMs) rest ->
    let h' := Debounce.burst debounceMs h rest in
    pending debounceMs h'
    /\ Debounce.passes h' = Debounce.passes h
    /\ Debounce.text h' = last (map snd rest) (Debounce.text h).
Proof.
  induction rest as [|[gap value] rest IH]; intros h Hp Hg.
  - simpl. auto.
  - inversion Hg as [|e l Hgap Hrest]; subst. simpl in Hgap.
    destruct (change_when_pending debounceMs h gap value Hp Hgap)
      as (Hp' & Hpass & Htext).
    destruct (IH _ Hp' Hrest) as (Hp'' & Hpass' & Htext').
    cbn [Debounce.burst]. repeat split.
    + assumption.
    + now rewrite Hpass'.
    + rewrite Htext', Htext. cbn [map snd]. symmetry. apply last_cons.
Qed.

Lemma advance_before_due (debounceMs : nat) (h : Debounce.host) (t : nat) :
  pending debounceMs h ->
  t < Debounce.now h + debounceMs ->
  Debounce.passes (Debounce.advance t h) = Debounce.passes h
  /\ pending debounceMs
       (Debounce.mkHost (Debounce.now h) (Debounce.nextHandle h)
          (Debounce.timers (Debounce.advance t h)) (Debounce.text h)
          (Debounce.validationTimeout (Debounce.advance t h))
          (Debounce.passes h)).
Proof.
  destruct h as [n nh tm tx vt ps]. intros (handle & Ht & Hv) Hlt.
  simpl in Ht, Hv, Hlt. subst tm vt.
  assert (E : (n + debounceMs <=? t) = false) by (apply Nat.leb_gt; lia).
  unfold Debounce.advance.
  cbn [Debounce.timers Debounce.now filter snd fst]. rewrite E. cbn.
  split; [reflexivity | now exists handle].
Qed.

Lemma advance_after_due (debounceMs : nat) (h : Debounce.host) (t : nat) :
  pending debounceMs h ->
  Debounce.now h + debounceMs <= t ->
  Debounce.passes (Debounce.advance t h)
  = (Debounce.passes h ++ [Debounce.text h])%list
  /\ Debounce.timers (Debounce.advance t h) = []
  /\ Debounce.validationTimeout (Debounce.advance t h) = None.
Proof.
  destruct h as [n nh tm tx vt ps]. intros (handle & Ht & Hv) Hle.
  simpl in Ht, Hv, Hle. subst tm vt.
  assert (E : (n + debounceMs <=? t) = true) by (apply Nat.leb_le; lia).
  unfold Debounce.advance.
  cbn [Debounce.timers Debounce.now filter snd fst]. rewrite E. cbn.
  repeat split.
Qed.

(** C9. A burst of changes, each less than the debounce window after the one
    before it, runs no validation pass while it lasts and leaves exactly one
    timer pending, the one set by the last change (every change clears the
    timer of the change before).  Until that timer is due no pass runs; once
    it is due exactly one pass runs, on the text of the last change, and no
    timer is left. *)
Theorem debounce_one_pass
        (debounceMs : nat) (h : Debounce.host)
        (gap0 : nat) (value0 : string) (rest : list (nat * string)) :
  Debounce.timers h = [] ->
  Debounce.validationTimeout h = None ->
  Forall (fun e => fst e < debounceMs) rest ->
  let h' := Debounce.burst debounceMs h ((gap0, value0) :: rest) in
  let lastValue := last (map snd rest) value0 in
  Debounce.passes h' = Debounce.passes h
  /\ pending debounceMs h'
  /\ (forall t, t < Debounce.now h' + debounceMs ->
                Debounce.passes (Debounce.advance t h') = Debounce.passes h)
  /\ (forall t, Debounce.now h' + debounceMs <= t ->
                Debounce.passes (Debounce.advance t h')
                = (Debounce.passes h ++ [lastValue])%list
                /\ Debounce.published (Debounce.advance t h')
                   = (Debounce.published h
                      ++ [Validator.validateLiquidSyntax lastValue])%list
                /\ Debounce.timers (Debounce.advance t h') = []
                /\ Debounce.validationTimeout (Debounce.advance t h') = None).
Proof.
  intros Htm Hvt Hg h' lastValue.
  destruct (change_when_idle debounceMs h gap0 value0 Htm Hvt)
    as (Hp & Hpass & Htext).
  destruct (burst_when_pending debounceMs rest _ Hp Hg)
    as (Hp' & Hpass' & Htext').
  rewrite Htext in Htext'. rewrite Hpass in Hpass'.
  change (Debounce.burst debounceMs
            (Debounce.change debounceMs h (Debounce.now h + gap0) value0) rest)
    with h' in *.
  fold lastValue in Htext'.
  split; [assumption|]. split; [assumption|]. split.
  - intros t Ht. destruct (advance_before_due debounceMs h' t Hp' Ht) as [-> _].
    assumption.
  - intros t Ht.
    destruct (advance_after_due debounceMs h' t Hp' Ht) as (Ha & Hb & Hc).
    rewrite Htext', Hpass' in Ha.
    repeat split; try assumption.
    unfold Debounce.published. rewrite Ha, map_app. reflexivity.
Qed.

Lemma debounce_one_pass_witness :
  Debounce.passes
    (Debounce.advance 1719
       (Debounce.burst 300 attached ((1000, "{% if x %}{") :: typing)))
  = ["{% if x %}"; "{% if x %}{{ y"]
  /\ Debounce.passes
       (Debounce.advance 1718
          (Debounce.burst 300 attached ((1000, "{% if x %}{") :: typing)))
     = ["{% if x %}"].
Proof.
  assert (G : Forall (fun e : nat * string => fst e < 300) typing).
  { repeat constructor; simpl; lia. }
  pose proof (debounce_one_pass 300 attached 1000 "{% if x %}{" typing
                                eq_refl eq_refl G)
    as (_ & _ & Hbefore & Hafter).
  split.
  - apply (Hafter 1719). vm_compute. lia.
  - apply (Hbefore 1718). vm_compute. lia.
Defined.

(** ** The two validators *)

Lemma isOutput_forget (f : Validator.frame) :
  IndexTs.isOutput (forget f) = Validator.isOutput f.
Proof. reflexivity. Qed.

Lemma isBlockTag_not_liquid (tag : string) :
  String.eqb tag "liquid" = false ->
  IndexTs.isBlockTag tag = Validator.isBlockTag tag.
Proof.
  intros H. unfold IndexTs.isBlockTag, Validator.isBlockTag.
  unfold Validator.blockTags, IndexTs.blockTags. cbn [existsb].
  rewrite H. now rewrite !orb_false_r.
Qed.

Lemma related_replayOutput (lineNumber : nat) (v : Validator.state)
      (i : IndexTs.state) (outputMatch : Liquid.outputMatch) :
  related v i ->
  closeOnTop v outputMatch = true ->
  related (Validator.replayOutput lineNumber v outputMatch)
          (IndexTs.replayOutput lineNumber i outputMatch).
Proof.
  destruct v as [vs vm], i as [is_ im]. intros [Hs Hm] Hok.
  simpl in Hs, Hm. subst is_ im.
  unfold closeOnTop in Hok.
  unfold Validator.replayOutput, IndexTs.replayOutput.
  destruct (Liquid.type outputMatch); cbn [Validator.stack Validator.markers
    IndexTs.stack IndexTs.markers] in *.
  - split; cbn; [|reflexivity]. unfold JS.push. now rewrite map_app.
  - destruct (JS.pop vs) as [[top rest]|] eqn:E.
    + apply pop_Some in E. subst vs. unfold JS.push.
      pose proof (replayOutput_close_found lineNumber
                    (Liquid.index outputMatch) rest top [] vm Hok eq_refl) as Hv.
      unfold Validator.replayOutput in Hv. cbn in Hv.
      unfold JS.findLastIndex in *.
      destruct (JS.findLastIndex_from Validator.isOutput (rest ++ [top]) 0).
      * injection Hv as Hv. rewrite app_nil_r in Hv.
        rewrite map_app, rev_app_distr. cbn [map rev app].
        cbn [IndexTs.popToOutput]. rewrite isOutput_forget, Hok.
        rewrite isOutput_forget, Hok. cbn [negb].
        split; cbn; [|reflexivity].
        rewrite rev_involutive, Hv. reflexivity.
      * injection Hv as Hv _. exfalso.
        apply (f_equal (@List.length _)) in Hv.
        rewrite !length_app in Hv. simpl in Hv. lia.
    + apply pop_None in E. subst vs. split; reflexivity.
Qed.

Lemma related_openTag (lineNumber : nat) (v : Validator.state)
      (i : IndexTs.state) (m : JS.RegExpExecArray) :
  related v i ->
  notLiquid m = true ->
  related (Validator.openTag lineNumber v m) (IndexTs.openTag lineNumber i m).
Proof.
  intros [Hs Hm] Hok. unfold notLiquid in Hok.
  apply negb_true_iff in Hok.
  unfold Validator.openTag, IndexTs.openTag.
  rewrite (isBlockTag_not_liquid _ Hok).
  destruct (negb (JS.startsWith "end" (Liquid.capture1 m))
            && Validator.isBlockTag (Liquid.capture1 m)).
  - split; cbn; [|assumption]. unfold JS.push.
    rewrite map_app, Hs. reflexivity.
  - now split.
Qed.

Lemma related_closeTag (lineNumber : nat) (v : Validator.state)
      (i : IndexTs.state) (m : JS.RegExpExecArray) :
  related v i ->
  related (Validator.closeTag lineNumber v m) (IndexTs.closeTag lineNumber i m).
Proof.
  destruct v as [vs vm], i as [is_ im]. intros [Hs Hm].
  simpl in Hs, Hm. subst is_ im.
  unfold Validator.closeTag, IndexTs.closeTag,
    Validator.closeTagAt, IndexTs.closeTagAt.
  cbn [Validator.stack Validator.markers IndexTs.stack IndexTs.markers].
  destruct (JS.pop vs) as [[last rest]|] eqn:E.
  - apply pop_Some in E. subst vs.
    replace (map forget (JS.push rest last))
      with (JS.push (map forget rest) (forget last))
      by (unfold JS.push; now rewrite map_app).
    rewrite pop_push. cbn [forget IndexTs.tag].
    destruct (negb (String.eqb (Validator.tag last) (Liquid.capture1 m)));
      split; reflexivity.
  - apply pop_None in E. subst vs. split; reflexivity.
Qed.

Lemma related_fold {E : Type}
      (stepV : Validator.state -> E -> Validator.state)
      (stepI : IndexTs.state -> E -> IndexTs.state)
      (ok : Validator.state -> E -> bool) :
  (forall v i e, related v i -> ok v e = true ->
                 related (stepV v e) (stepI i e)) ->
  forall l v i,
    related v i -> holds_along stepV ok l v = true ->
    related (fold_left stepV l v) (fold_left stepI l i).
Proof.
  intros Hstep. induction l as [|e l IH]; intros v i HR Hok; simpl in *.
  - assumption.
  - apply andb_prop in Hok as [He Hl]. apply IH; auto.
Qed.

Lemma holds_along_forallb {St E : Type} (step : St -> E -> St)
      (ok : E -> bool) (l : list E) :
  forall st, forallb ok l = true ->
             holds_along step (fun _ e => ok e) l st = true.
Proof.
  induction l as [|e l IH]; intros st H; simpl in *; [reflexivity|].
  apply andb_prop in H as [He Hl]. rewrite He. now apply IH.
Qed.

Lemma holds_along_always {St E : Type} (step : St -> E -> St) (l : list E) :
  forall st, holds_along step (fun _ _ => true) l st = true.
Proof. induction l as [|e l IH]; intros st; simpl; auto. Qed.

Lemma related_validateLine (v : Validator.state) (i : IndexTs.state)
      (lineContent : string) (index : nat) :
  related v i ->
  lineAgrees v lineContent index = true ->
  related (Validator.validateLine v lineContent index)
          (IndexTs.validateLine i lineContent index).
Proof.
  intros HR Hok. unfold lineAgrees in Hok.
  apply andb_prop in Hok as [Hout Hopen].
  unfold Validator.validateLine, IndexTs.validateLine.
  eapply related_fold with (ok := fun _ _ => true);
    [intros; now apply related_closeTag | | apply holds_along_always].
  eapply related_fold with (ok := fun _ m => notLiquid m);
    [intros; now apply related_openTag | | now apply holds_along_forallb].
  eapply related_fold with (ok := closeOnTop);
    [intros; now apply related_replayOutput | assumption | assumption].
Qed.

Lemma related_forEach (lines : list string) :
  forall index v i,
    related v i ->
    linesAgree lines index v = true ->
    related (Liquid.forEach_from Validator.validateLine lines index v)
            (Liquid.forEach_from IndexTs.validateLine lines index i).
Proof.
  induction lines as [|lineContent rest IH]; intros index v i HR Hok;
    simpl in *.
  - assumption.
  - apply andb_prop in Hok as [Hl Hrest].
    apply IH; [now apply related_validateLine | assumption].
Qed.

Lemma index_ts_reportUnclosed (st : IndexTs.state) :
  IndexTs.reportUnclosed st
  = (IndexTs.markers st
     ++ map IndexTs.unclosed (rev (IndexTs.stack st)))%list.
Proof.
  unfold IndexTs.reportUnclosed.
  generalize (IndexTs.markers st) as ms.
  induction (rev (IndexTs.stack st)) as [|f fs IH]; intros ms; simpl.
  - now rewrite app_nil_r.
  - rewrite IH. unfold JS.push. now rewrite <- app_assoc.
Qed.

Lemma Forall_splice1 {A : Type} (P : A -> Prop) (l : list A) :
  Forall P l -> forall i, Forall P (JS.splice1 i l).
Proof.
  unfold JS.splice1. induction 1 as [|x l Hx Hl IH]; intros [|i]; simpl.
  - constructor.
  - constructor.
  - assumption.
  - constructor; [assumption | apply IH].
Qed.

Lemma placed_replayOutput (lineNumber : nat) (st : Validator.state)
      (outputMatch : Liquid.outputMatch) :
  0 < lineNumber ->
  Forall placed (Validator.stack st) ->
  Forall placed
         (Validator.stack (Validator.replayOutput lineNumber st outputMatch)).
Proof.
  intros Hl H. unfold Validator.replayOutput.
  destruct (Liquid.type outputMatch); cbn.
  - apply Forall_app; split; [assumption|].
    constructor; [split; simpl; lia | constructor].
  - destruct (JS.findLastIndex Validator.isOutput (Validator.stack st));
      cbn; [|assumption].
    now apply Forall_splice1.
Qed.

Lemma placed_openTag (lineNumber : nat) (st : Validator.state)
      (m : JS.RegExpExecArray) :
  0 < lineNumber ->
  Forall placed (Validator.stack st) ->
  Forall placed (Validator.stack (Validator.openTag lineNumber st m)).
Proof.
  intros Hl H. unfold Validator.openTag.
  destruct (negb (JS.startsWith "end" (Liquid.capture1 m))
            && Validator.isBlockTag (Liquid.capture1 m)); [|assumption].
  cbn. apply Forall_app; split; [assumption|].
  constructor; [split; simpl; lia | constructor].
Qed.

Lemma placed_closeTag (lineNumber : nat) (st : Validator.state)
      (m : JS.RegExpExecArray) :
  Forall placed (Validator.stack st) ->
  Forall placed (Validator.stack (Validator.closeTag lineNumber st m)).
Proof.
  intros H. unfold Validator.closeTag, Validator.closeTagAt.
  destruct (JS.pop (Validator.stack st)) as [[last rest]|] eqn:E;
    [|assumption].
  apply pop_Some in E. rewrite E in H. unfold JS.push in H.
  apply Forall_app in H as [H _].
  destruct (negb (String.eqb (Validator.tag last) (Liquid.capture1 m)));
    assumption.
Qed.

Lemma placed_fold {E : Type} (step : Validator.state -> E -> Validator.state) :
  (forall st e, Forall placed (Validator.stack st) ->
                Forall placed (Validator.stack (step st e))) ->
  forall l st, Forall placed (Validator.stack st) ->
               Forall placed (Validator.stack (fold_left step l st)).
Proof.
  intros Hstep. induction l as [|e l IH]; intros st H; simpl; auto.
Qed.

Lemma placed_validateLine (st : Validator.state) (lineContent : string)
      (index : nat) :
  Forall placed (Validator.stack st) ->
  Forall placed (Validator.stack (Validator.validateLine st lineContent index)).
Proof.
  intros H. unfold Validator.validateLine.
  apply placed_fold; [intros; now apply placed_closeTag|].
  apply placed_fold; [intros; apply placed_openTag; [lia | assumption]|].
  apply placed_fold; [intros; apply placed_replayOutput; [lia | assumption]|].
  assumption.
Qed.

Lemma placed_forEach (lines : list string) :
  forall index st,
    Forall placed (Validator.stack st) ->
    Forall placed
      (Validator.stack (Liquid.forEach_from Validator.validateLine lines index st)).
Proof.
  induction lines as [|l rest IH]; intros index st H; simpl; auto.
  apply IH. now apply placed_validateLine.
Qed.

Lemma unclosed_forget (f : Validator.frame) :
  placed f ->
  IndexTs.unclosed (forget f) = zeroWidth (Validator.unclosed f).
Proof.
  intros [Hl Hc]. unfold IndexTs.unclosed, Validator.unclosed, zeroWidth.
  cbn. unfold IndexTs.or1.
  destruct (Validator.lineNumber f) as [|l]; [lia|].
  destruct (Validator.column f) as [|c]; [lia|].
  reflexivity.
Qed.

(** C10, as stated: the two validators give the same diagnostics on every
    document.  They do not: [src/index.ts] ends an unclosed diagnostic at
    its start column, the current validator [length] columns further. *)
Lemma validators_differ :
  ~ (forall text,
        IndexTs.validateLiquidSyntax text = Validator.validateLiquidSyntax text).
Proof. intros H. specialize (H "{% if x %}"). vm_compute in H. discriminate H. Qed.

(** The other two differences: [liquid] is a block tag of the current
    validator only, and [src/index.ts] pops the block frames above an output
    frame. *)
Example validators_differ_on_liquid :
  Validator.validateLiquidSyntax "{% liquid %}{% endliquid %}" = []
  /\ IndexTs.validateLiquidSyntax "{% liquid %}{% endliquid %}"
     = [ Monaco.mkMarker Monaco.Error "Unmatched end tag 'endliquid'"
           1 13 1 28 ].
Proof. split; vm_compute; reflexivity. Qed.

(** C10, amended.  On a document during whose validation no [liquid] tag
    opens a block and every output-close marker meets an empty stack or an
    output frame on top, the two validators report the same diagnostics in
    the same order, but for the range of an unclosed diagnostic, which
    [src/index.ts] ends at its start column; the two lists are equal when no
    frame is left at the end of the pass. *)
Theorem validators_agree_when_agreeable (text : string) :
  agreeable text = true ->
  Validator.validateLiquidSyntax text
  = (Validator.markers (pass text)
     ++ map Validator.unclosed (rev (Validator.stack (pass text))))%list
  /\ IndexTs.validateLiquidSyntax text
     = (Validator.markers (pass text)
        ++ map zeroWidth
             (map Validator.unclosed (rev (Validator.stack (pass text)))))%list
  /\ (Validator.stack (pass text) = [] ->
      IndexTs.validateLiquidSyntax text = Validator.validateLiquidSyntax text).
Proof.
  intros Hok.
  assert (HV : Validator.validateLiquidSyntax text
               = (Validator.markers (pass text)
                  ++ map Validator.unclosed
                       (rev (Validator.stack (pass text))))%list)
    by apply reportUnclosed_lifo.
  assert (HR : related (pass text)
                 (Liquid.forEach IndexTs.validateLine
                    (JS.split Liquid.lineBreak text) (IndexTs.mkState [] []))).
  { apply related_forEach; [split; reflexivity | exact Hok]. }
  assert (HP : Forall placed (Validator.stack (pass text))).
  { apply placed_forEach. constructor. }
  assert (HI : IndexTs.validateLiquidSyntax text
               = (Validator.markers (pass text)
                  ++ map zeroWidth
                       (map Validator.unclosed
                            (rev (Validator.stack (pass text)))))%list).
  { unfold IndexTs.validateLiquidSyntax. rewrite index_ts_reportUnclosed.
    destruct HR as [Hs Hm]. rewrite <- Hs, <- Hm. f_equal.
    rewrite <- map_rev, !map_map. apply map_ext_in.
    intros f Hf. apply unclosed_forget.
    rewrite Forall_forall in HP. apply HP. now apply in_rev. }
  split; [exact HV|]. split; [exact HI|].
  intros Hempty. rewrite HV, HI, Hempty. reflexivity.
Qed.

Lemma validators_agree_witness :
  agreeable readme_document = true
  /\ IndexTs.validateLiquidSyntax readme_document
     = Validator.validateLiquidSyntax readme_document.
Proof.
  split; [vm_compute; reflexivity|].
  apply (validators_agree_when_agreeable readme_document);
    vm_compute; reflexivity.
Defined.

(** * Further properties *)

(** ** Where a scanning loop finds its matches *)

Lemma substring_length (n : nat) (s : string) :
  n <= String.length s -> String.length (substring 0 n s) = n.
Proof.
  revert n. induction s as [|c s IH]; intros [|n] H; simpl in *;
    try reflexivity; try lia.
  rewrite IH; lia.
Qed.

Lemma scan_inside (r : JS.regex) (s : string) :
  forall idx skip m,
    In m (JS.scan r s idx skip) ->
    idx + skip <= JS.index m
    /\ JS.index m + String.length (JS.matched m) <= idx + String.length s
    /\ JS.minlen r <= String.length (JS.matched m).
Proof.
  induction s as [|c s IH]; intros idx skip m H; cbn [JS.scan] in H;
    [contradiction|].
  destruct skip as [|n].
  - destruct (JS.matchAt r (String c s)) as [[len cap]|] eqn:E.
    + apply matchAt_minlen in E as [Hmin Hlen].
      destruct H as [<-|H].
      * cbn [JS.index JS.matched]. rewrite substring_length by assumption.
        simpl in *. lia.
      * apply IH in H. simpl. lia.
    + apply IH in H. simpl. lia.
  - apply IH in H. simpl. lia.
Qed.

Lemma execAll_inside (r : JS.regex) (line : string) (m : JS.RegExpExecArray) :
  In m (JS.execAll r line) ->
  JS.index m + String.length (JS.matched m) <= String.length line
  /\ JS.minlen r <= String.length (JS.matched m).
Proof.
  intros H. apply scan_inside in H. simpl in H. lia.
Qed.

Lemma insert_by_In {A : Type} (key : A -> nat) (x y : A) (l : list A) :
  In y (JS.insert_by key x l) <-> y = x \/ In y l.
Proof.
  induction l as [|z l IH]; simpl.
  - intuition.
  - destruct (key z <=? key x); simpl; rewrite ?IH; intuition.
Qed.

Lemma sort_by_In {A : Type} (key : A -> nat) (l : list A) (y : A) :
  In y (JS.sort_by key l) <-> In y l.
Proof.
  unfold JS.sort_by.
  assert (G : forall acc, In y (fold_left (fun a x => JS.insert_by key x a) l acc)
                          <-> In y l \/ In y acc).
  { induction l as [|x l IH]; intros acc; simpl.
    - intuition.
    - rewrite IH, insert_by_In. intuition. }
  rewrite G. simpl. intuition.
Qed.

Lemma outputMatches_inside (line : string) (om : Liquid.outputMatch) :
  In om (Liquid.outputMatches line) ->
  Liquid.index om + 2 <= String.length line.
Proof.
  unfold Liquid.outputMatches. rewrite sort_by_In, in_app_iff, !in_map_iff.
  intros [(m & <- & H)|(m & <- & H)]; apply execAll_inside in H;
    simpl in *; lia.
Qed.

(** ** Diagnostics lie inside the document *)

Lemma fold_left_invariant {St E : Type} (P : St -> Prop) (step : St -> E -> St)
      (l : list E) :
  (forall st e, In e l -> P st -> P (step st e)) ->
  forall st, P st -> P (fold_left step l st).
Proof.
  induction l as [|e l IH]; intros Hstep st H; simpl; [assumption|].
  apply IH.
  - intros st' e' Hin. apply Hstep. now right.
  - apply Hstep; [now left | assumption].
Qed.

Lemma inside_replayOutput (lines : list string) (i : nat)
      (st : Validator.state) (om : Liquid.outputMatch) :
  i < List.length lines ->
  Liquid.index om + 2 <= String.length (nth i lines "") ->
  stateInside lines st ->
  stateInside lines (Validator.replayOutput (i + 1) st om).
Proof.
  intros Hi Hom [Hs Hm]. unfold Validator.replayOutput.
  destruct (Liquid.type om).
  - split; cbn; [|assumption].
    apply Forall_app; split; [assumption|]. constructor; [|constructor].
    unfold frameInside. cbn. replace (i + 1 - 1) with i by lia. lia.
  - destruct (JS.findLastIndex Validator.isOutput (Validator.stack st)).
    + split; cbn; [now apply Forall_splice1 | assumption].
    + split; cbn; [assumption|].
      apply Forall_app; split; [assumption|]. constructor; [|constructor].
      unfold markerInside, Validator.unmatchedClosing. cbn.
      replace (i + 1 - 1) with i by lia. repeat split; lia.
Qed.

Lemma inside_openTag (lines : list string) (i : nat)
      (st : Validator.state) (m : JS.RegExpExecArray) :
  i < List.length lines ->
  JS.index m + String.length (JS.matched m) <= String.length (nth i lines "") ->
  1 <= String.length (JS.matched m) ->
  stateInside lines st ->
  stateInside lines (Validator.openTag (i + 1) st m).
Proof.
  intros Hi Hm Hl [Hs Hmk]. unfold Validator.openTag.
  destruct (negb (JS.startsWith "end" (Liquid.capture1 m))
            && Validator.isBlockTag (Liquid.capture1 m)); [|now split].
  split; cbn; [|assumption].
  apply Forall_app; split; [assumption|]. constructor; [|constructor].
  unfold frameInside. cbn. replace (i + 1 - 1) with i by lia. lia.
Qed.

Lemma inside_closeTag (lines : list string) (i : nat)
      (st : Validator.state) (m : JS.RegExpExecArray) :
  i < List.length lines ->
  JS.index m + String.length (JS.matched m) <= String.length (nth i lines "") ->
  1 <= String.length (JS.matched m) ->
  stateInside lines st ->
  stateInside lines (Validator.closeTag (i + 1) st m).
Proof.
  intros Hi Hm Hl [Hs Hmk].
  assert (Hnew : forall msg,
             markerInside lines
               (Monaco.mkMarker Monaco.Error msg (i + 1) (JS.index m + 1) (i + 1)
                  (JS.index m + String.length (JS.matched m) + 1))).
  { intros msg. unfold markerInside. cbn.
    replace (i + 1 - 1) with i by lia. repeat split; lia. }
  unfold Validator.closeTag, Validator.closeTagAt.
  destruct (JS.pop (Validator.stack st)) as [[last rest]|] eqn:E.
  - apply pop_Some in E. rewrite E in Hs. unfold JS.push in Hs.
    apply Forall_app in Hs as [Hs _].
    destruct (negb (String.eqb (Validator.tag last) (Liquid.capture1 m)));
      split; cbn; try assumption.
    apply Forall_app; split; [assumption|]. constructor; [|constructor].
    apply Hnew.
  - split; cbn; [assumption|].
    apply Forall_app; split; [assumption|]. constructor; [|constructor].
    apply Hnew.
Qed.

Lemma inside_validateLine (lines : list string) (i : nat)
      (st : Validator.state) :
  i < List.length lines ->
  stateInside lines st ->
  stateInside lines (Validator.validateLine st (nth i lines "") i).
Proof.
  intros Hi H. unfold Validator.validateLine.
  apply fold_left_invariant.
  { intros st' m Hin. apply execAll_inside in Hin as [Hb Hl]. simpl in Hl.
    apply inside_closeTag; [assumption | assumption | lia]. }
  apply fold_left_invariant.
  { intros st' m Hin. apply execAll_inside in Hin as [Hb Hl]. simpl in Hl.
    apply inside_openTag; [assumption | assumption | lia]. }
  apply fold_left_invariant; [|assumption].
  intros st' om Hin. apply outputMatches_inside in Hin.
  now apply inside_replayOutput.
Qed.

Lemma inside_forEach (lines rest : list string) :
  forall pre st,
    lines = (pre ++ rest)%list ->
    stateInside lines st ->
    stateInside lines
      (Liquid.forEach_from Validator.validateLine rest (List.length pre) st).
Proof.
  induction rest as [|l rest IH]; intros pre st E H; simpl; [assumption|].
  assert (Hn : nth (List.length pre) lines "" = l).
  { subst lines. rewrite app_nth2 by lia. now rewrite Nat.sub_diag. }
  assert (Hi : List.length pre < List.length lines).
  { subst lines. rewrite length_app. simpl. lia. }
  replace (S (List.length pre)) with (List.length (pre ++ [l]))
    by (rewrite length_app; simpl; lia).
  apply IH.
  - subst lines. now rewrite <- app_assoc.
  - rewrite <- Hn. now apply inside_validateLine.
Qed.

Lemma inside_unclosed (lines : list string) (f : Validator.frame) :
  frameInside lines f -> markerInside lines (Validator.unclosed f).
Proof.
  intros (Hl & Hc & Hn & Hb). unfold markerInside, Validator.unclosed. cbn.
  repeat split; lia.
Qed.

(** X1. Every diagnostic of the current validator is an error on one line
    of the document, and its range is non-empty and ends at most one column
    past the end of that line. *)
Theorem diagnostics_inside_document (text : string) :
  Forall (markerInside (linesOf text)) (Validator.validateLiquidSyntax text).
Proof.
  unfold Validator.validateLiquidSyntax. rewrite reportUnclosed_lifo.
  fold (linesOf text).
  assert (H : stateInside (linesOf text)
                (Liquid.forEach Validator.validateLine (linesOf text)
                                (Validator.mkState [] []))).
  { apply (inside_forEach (linesOf text) (linesOf text) []);
      [reflexivity | split; constructor]. }
  destruct H as [Hs Hm]. apply Forall_app; split; [assumption|].
  apply Forall_forall. intros m Hin. apply in_map_iff in Hin as (f & <- & Hf).
  apply inside_unclosed. rewrite Forall_forall in Hs. apply Hs.
  now apply in_rev.
Qed.

(** ** Counting what a document opens and closes *)

Lemma balanced_trans (o1 c1 o2 c2 : nat) (st0 st1 st2 : Validator.state) :
  balanced o1 c1 st0 st1 -> balanced o2 c2 st1 st2 ->
  balanced (o1 + o2) (c1 + c2) st0 st2.
Proof. unfold balanced. lia. Qed.

Lemma balanced_fold {E : Type} (step : Validator.state -> E -> Validator.state)
      (oe ce : E -> nat) :
  (forall st e, balanced (oe e) (ce e) st (step st e)) ->
  forall l st,
    balanced (list_sum (map oe l)) (list_sum (map ce l))
             st (fold_left step l st).
Proof.
  intros Hstep. induction l as [|e l IH]; intros st; simpl.
  - unfold balanced. lia.
  - eapply balanced_trans; [apply Hstep | apply IH].
Qed.

Lemma list_sum_indicator {A : Type} (p : A -> bool) (l : list A) :
  list_sum (map (fun x => if p x then 1 else 0) l) = count p l.
Proof.
  unfold count. induction l as [|x l IH]; simpl; [reflexivity|].
  destruct (p x); simpl; lia.
Qed.

Lemma list_sum_ones {A : Type} (l : list A) :
  list_sum (map (fun _ => 1) l) = List.length l.
Proof. induction l as [|x l IH]; simpl; lia. Qed.

Lemma list_sum_zeros {A : Type} (l : list A) :
  list_sum (map (fun _ => 0) l) = 0.
Proof. induction l as [|x l IH]; simpl; lia. Qed.

Lemma balanced_replayOutput (lineNumber : nat) (st : Validator.state)
      (om : Liquid.outputMatch) :
  balanced (if isStart om then 1 else 0) (if negb (isStart om) then 1 else 0)
           st (Validator.replayOutput lineNumber st om).
Proof.
  unfold balanced, Validator.replayOutput, isStart.
  destruct (Liquid.type om); cbn.
  - unfold JS.push. rewrite length_app. simpl. lia.
  - unfold JS.findLastIndex.
    pose proof (findLastIndex_from_inv Validator.isOutput
                  (Validator.stack st) 0) as H.
    destruct (JS.findLastIndex_from Validator.isOutput (Validator.stack st) 0)
      as [j|]; cbn.
    + destruct H as (below & x & above & E & -> & _ & _). rewrite E.
      simpl. rewrite splice1_middle, !length_app. simpl. lia.
    + unfold JS.push. rewrite length_app. simpl. lia.
Qed.

Lemma balanced_openTag (lineNumber : nat) (st : Validator.state)
      (m : JS.RegExpExecArray) :
  balanced (if pushes m then 1 else 0) 0 st (Validator.openTag lineNumber st m).
Proof.
  unfold balanced, Validator.openTag, pushes.
  destruct (negb (JS.startsWith "end" (Liquid.capture1 m))
            && Validator.isBlockTag (Liquid.capture1 m)); cbn; [|lia].
  unfold JS.push. rewrite length_app. simpl. lia.
Qed.

Lemma balanced_closeTag (lineNumber : nat) (st : Validator.state)
      (m : JS.RegExpExecArray) :
  balanced 0 1 st (Validator.closeTag lineNumber st m).
Proof.
  unfold balanced, Validator.closeTag, Validator.closeTagAt.
  destruct (JS.pop (Validator.stack st)) as [[last rest]|] eqn:E.
  - apply pop_Some in E. rewrite E. unfold JS.push.
    destruct (negb (String.eqb (Validator.tag last) (Liquid.capture1 m)));
      cbn; rewrite !length_app; simpl; lia.
  - cbn. unfold JS.push. rewrite length_app. simpl. lia.
Qed.

Lemma balanced_validateLine (st : Validator.state) (line : string) (i : nat) :
  balanced (lineOpens line) (lineCloses line) st
           (Validator.validateLine st line i).
Proof.
  unfold Validator.validateLine, lineOpens, lineCloses.
  rewrite <- !list_sum_indicator.
  rewrite <- (list_sum_ones (JS.execAll Liquid.endTagRegex line)).
  pose proof (balanced_fold (Validator.replayOutput (i + 1)) _ _
                (balanced_replayOutput (i + 1))
                (Liquid.outputMatches line) st) as H1.
  pose proof (balanced_fold (Validator.openTag (i + 1)) _ _
                (balanced_openTag (i + 1))
                (JS.execAll Liquid.tagRegex line)
                (fold_left (Validator.replayOutput (i + 1))
                           (Liquid.outputMatches line) st)) as H2.
  pose proof (balanced_fold (Validator.closeTag (i + 1)) _ _
                (balanced_closeTag (i + 1))
                (JS.execAll Liquid.endTagRegex line)
                (fold_left (Validator.openTag (i + 1))
                   (JS.execAll Liquid.tagRegex line)
                   (fold_left (Validator.replayOutput (i + 1))
                              (Liquid.outputMatches line) st))) as H3.
  rewrite list_sum_zeros in H2, H3.
  pose proof (balanced_trans _ _ _ _ _ _ _ (balanced_trans _ _ _ _ _ _ _ H1 H2) H3)
    as H.
  unfold balanced in *. lia.
Qed.

Lemma balanced_forEach (lines : list string) :
  forall i st,
    balanced (list_sum (map lineOpens lines)) (list_sum (map lineCloses lines))
             st (Liquid.forEach_from Validator.validateLine lines i st).
Proof.
  induction lines as [|l lines IH]; intros i st; simpl.
  - unfold balanced. lia.
  - eapply balanced_trans; [apply balanced_validateLine | apply IH].
Qed.

(** X2. The number of diagnostics is at least the difference between the
    constructs a document opens and those it closes: a document that opens
    more than it closes, or closes more than it opens, is never reported
    clean. *)
Theorem diagnostics_bound_imbalance (text : string) :
  opens text <= closes text + List.length (Validator.validateLiquidSyntax text)
  /\ closes text
     <= opens text + List.length (Validator.validateLiquidSyntax text).
Proof.
  unfold Validator.validateLiquidSyntax. rewrite reportUnclosed_lifo.
  rewrite length_app, length_map, length_rev.
  pose proof (balanced_forEach (linesOf text) 0 (Validator.mkState [] [])) as H.
  unfold balanced in H. cbn in H. fold (opens text) (closes text) in H.
  unfold Liquid.forEach. fold (linesOf text). lia.
Qed.

Example imbalance_example :
  opens "{% if x %}{{ y" = 2 /\ closes "{% if x %}{{ y" = 0
  /\ opens two_blocks_on_a_line = 2 /\ closes two_blocks_on_a_line = 2.
Proof. repeat split; vm_compute; reflexivity. Qed.

(** ** Text without braces *)

Lemma scan_nil (r : JS.regex) (s : string) :
  (forall t, suffix_of t s -> JS.matchAt r t = None) ->
  forall idx skip, JS.scan r s idx skip = [].
Proof.
  induction s as [|c s IH]; intros H idx skip; [reflexivity|].
  cbn [JS.scan]. destruct skip as [|n].
  - rewrite (H _ (suffix_all _)). apply IH.
    intros t Ht. apply H. now constructor.
  - apply IH. intros t Ht. apply H. now constructor.
Qed.

Lemma all_chars_suffix (p : ascii -> bool) (t s : string) :
  suffix_of t s -> all_chars p s = true -> all_chars p t = true.
Proof.
  induction 1 as [s|c s t _ IH]; [auto|].
  simpl. intros H. apply andb_prop in H as [_ H]. auto.
Qed.

Lemma brace_free_no_tag (s : string) :
  brace_free s = true ->
  JS.matchAt Liquid.tagRegex s = None
  /\ JS.matchAt Liquid.endTagRegex s = None
  /\ JS.matchAt Liquid.outputStartRegex s = None
  /\ JS.matchAt Liquid.outputEndRegex s = None.
Proof.
  unfold brace_free, JS.matchAt.
  destruct s as [|c s]; [repeat split|].
  cbn [all_chars]. intros H. apply andb_prop in H as [Hc Hs].
  unfold no_brace in Hc. apply andb_prop in Hc as [Ho Hcl].
  apply negb_true_iff in Ho, Hcl.
  unfold Liquid.tagRegex, Liquid.endTagRegex, Liquid.outputStartRegex,
    Liquid.outputEndRegex.
  cbn [JS.rmatch]. rewrite (Ascii.eqb_sym "{" c), Ho.
  repeat split.
  rewrite (Ascii.eqb_sym "}" c), Hcl.
  destruct (Ascii.eqb "-" c); [|reflexivity].
  destruct s as [|c' s]; [reflexivity|].
  cbn [all_chars] in Hs. apply andb_prop in Hs as [Hc' _].
  unfold no_brace in Hc'. apply andb_prop in Hc' as [_ Hcl'].
  apply negb_true_iff in Hcl'.
  now rewrite (Ascii.eqb_sym "}" c'), Hcl'.
Qed.

Lemma brace_free_execAll (line : string) :
  brace_free line = true ->
  JS.execAll Liquid.tagRegex line = []
  /\ JS.execAll Liquid.endTagRegex line = []
  /\ Liquid.outputMatches line = [].
Proof.
  intros H.
  assert (G : forall t, suffix_of t line -> brace_free t = true).
  { intros t Ht. exact (all_chars_suffix _ _ _ Ht H). }
  unfold Liquid.outputMatches, JS.execAll.
  rewrite !scan_nil; [repeat split | | | |];
    intros t Ht; apply brace_free_no_tag; auto.
Qed.

Lemma brace_free_validateLine (st : Validator.state) (line : string) (i : nat) :
  brace_free line = true -> Validator.validateLine st line i = st.
Proof.
  intros H. destruct (brace_free_execAll line H) as (E1 & E2 & E3).
  unfold Validator.validateLine. now rewrite E1, E2, E3.
Qed.

Lemma index_ts_brace_free_validateLine (st : IndexTs.state) (line : string)
      (i : nat) :
  brace_free line = true -> IndexTs.validateLine st line i = st.
Proof.
  intros H. destruct (brace_free_execAll line H) as (E1 & E2 & E3).
  unfold IndexTs.validateLine. now rewrite E1, E2, E3.
Qed.

Lemma all_chars_rev_string (p : ascii -> bool) (cur : list ascii) :
  forall t,
    all_chars p (JS.rev_string cur t) = forallb p cur && all_chars p t.
Proof.
  induction cur as [|c cur IH]; intros t; simpl; [reflexivity|].
  rewrite IH. simpl. destruct (p c), (forallb p cur); reflexivity.
Qed.

(** The pieces of a split hold characters of the string only. *)
Lemma split_go_all_chars (p : ascii -> bool) (r : JS.regex) (s : string) :
  forall skip cur,
    all_chars p s = true -> forallb p cur = true ->
    Forall (fun piece => all_chars p piece = true) (JS.split_go r s skip cur).
Proof.
  induction s as [|c s IH]; intros skip cur Hs Hc; cbn [JS.split_go].
  - constructor; [|constructor]. now rewrite all_chars_rev_string, Hc.
  - cbn [all_chars] in Hs. apply andb_prop in Hs as [Hpc Hs].
    destruct skip as [|n]; [|now apply IH].
    destruct (JS.matchAt r (String c s)) as [[[|len] cap]|].
    + apply IH; [assumption | simpl; now rewrite Hpc, Hc].
    + constructor; [now rewrite all_chars_rev_string, Hc | now apply IH].
    + apply IH; [assumption | simpl; now rewrite Hpc, Hc].
Qed.

Lemma split_all_chars (p : ascii -> bool) (r : JS.regex) (s : string) :
  all_chars p s = true ->
  Forall (fun piece => all_chars p piece = true) (JS.split r s).
Proof. intros H. now apply split_go_all_chars. Qed.

Lemma forEach_unchanged {St : Type} (f : St -> string -> nat -> St)
      (P : string -> Prop) (lines : list string) :
  (forall st line i, P line -> f st line i = st) ->
  Forall P lines ->
  forall i st, Liquid.forEach_from f lines i st = st.
Proof.
  intros Hf. induction 1 as [|l lines Hl _ IH]; intros i st; simpl.
  - reflexivity.
  - rewrite Hf by assumption. apply IH.
Qed.

(** X3. A document without a brace gets no diagnostic, from either
    validator. *)
Theorem brace_free_document_clean (text : string) :
  brace_free text = true ->
  Validator.validateLiquidSyntax text = []
  /\ IndexTs.validateLiquidSyntax text = [].
Proof.
  intros H. pose proof (split_all_chars _ Liquid.lineBreak _ H) as Hl.
  unfold Validator.validateLiquidSyntax, IndexTs.validateLiquidSyntax,
    Liquid.forEach.
  rewrite (forEach_unchanged Validator.validateLine
             (fun l => brace_free l = true));
    [| intros; now apply brace_free_validateLine | exact Hl].
  rewrite (forEach_unchanged IndexTs.validateLine
             (fun l => brace_free l = true));
    [| intros; now apply index_ts_brace_free_validateLine | exact Hl].
  split; reflexivity.
Qed.

Lemma brace_free_document_clean_witness :
  brace_free ("<p>Hello</p>" ++ LF ++ "<p>a - b</p>") = true
  /\ Validator.validateLiquidSyntax ("<p>Hello</p>" ++ LF ++ "<p>a - b</p>") = []
  /\ IndexTs.validateLiquidSyntax ("<p>Hello</p>" ++ LF ++ "<p>a - b</p>") = [].
Proof.
  split; [reflexivity|].
  apply (brace_free_document_clean ("<p>Hello</p>" ++ LF ++ "<p>a - b</p>")).
  reflexivity.
Defined.

(** ** Lines and line terminators *)

Lemma append_empty_r (s : string) : s ++ "" = s.
Proof. induction s as [|c s IH]; simpl; [reflexivity | now rewrite IH]. Qed.

Lemma append_assoc (a b c : string) : (a ++ b) ++ c = a ++ (b ++ c).
Proof. induction a as [|x a IH]; simpl; [reflexivity | now rewrite IH]. Qed.


Lemma rev_string_push_chars (x : string) :
  forall cur t, JS.rev_string (push_chars x cur) t = JS.rev_string cur (x ++ t).
Proof.
  induction x as [|c x IH]; intros cur t; simpl; [reflexivity|].
  now rewrite IH.
Qed.

Lemma matchAt_lineBreak (c : ascii) (s : string) :
  JS.matchAt Liquid.lineBreak (String c s)
  = if Ascii.eqb c "010" then Some (1, None)
    else if Ascii.eqb c "013" then
           match s with
           | String c' _ => if Ascii.eqb c' "010" then Some (2, None) else None
           | EmptyString => None
           end
         else None.
Proof.
  unfold JS.matchAt, Liquid.lineBreak. cbn [JS.rmatch].
  rewrite (Ascii.eqb_sym "013" c), (Ascii.eqb_sym "010" c).
  destruct (Ascii.eqb c "013") eqn:Ecr.
  - apply Ascii.eqb_eq in Ecr. subst c.
    change (Ascii.eqb "013" "010") with false. cbv iota.
    destruct s as [|c' s']; [reflexivity|].
    rewrite (Ascii.eqb_sym "010" c').
    destruct (Ascii.eqb c' "010"); [|reflexivity].
    cbn [String.length]. do 2 f_equal. lia.
  - destruct (Ascii.eqb c "010"); [|reflexivity].
    cbn [String.length]. do 2 f_equal. lia.
Qed.

Lemma split_go_plain (x : string) :
  forall t cur,
    plain x = true ->
    JS.split_go Liquid.lineBreak (x ++ t) 0 cur
    = JS.split_go Liquid.lineBreak t 0 (push_chars x cur).
Proof.
  induction x as [|c x IH]; intros t cur H; [reflexivity|].
  cbn [plain all_chars] in H. apply andb_prop in H as [Hc Hx].
  unfold no_break in Hc. apply andb_prop in Hc as [Hcr Hlf].
  apply negb_true_iff in Hcr, Hlf.
  cbn [append JS.split_go]. rewrite matchAt_lineBreak, Hlf, Hcr.
  now apply IH.
Qed.

Lemma split_go_line_end (x : string) :
  plain x = true ->
  JS.split_go Liquid.lineBreak x 0 [] = [x].
Proof.
  intros H. rewrite <- (append_empty_r x) at 1.
  rewrite split_go_plain by assumption. cbn [JS.split_go].
  rewrite rev_string_push_chars. cbn [JS.rev_string].
  now rewrite append_empty_r.
Qed.

Lemma split_join_LF (ls : list string) :
  forall x,
    Forall (fun l => plain l = true) (x :: ls) ->
    JS.split Liquid.lineBreak (JS.join LF (x :: ls)) = x :: ls.
Proof.
  unfold JS.split.
  induction ls as [|y ls IH]; intros x H; inversion H as [|? ? Hx Hrest]; subst.
  - now apply split_go_line_end.
  - change (JS.join LF (x :: y :: ls)) with (x ++ LF ++ JS.join LF (y :: ls)).
    rewrite split_go_plain by assumption.
    unfold LF at 1. cbn [append JS.split_go]. rewrite matchAt_lineBreak.
    cbn [Ascii.eqb Bool.eqb]. rewrite rev_string_push_chars.
    cbn [JS.rev_string]. rewrite append_empty_r. f_equal. now apply IH.
Qed.

Lemma split_join_CRLF (ls : list string) :
  forall x,
    Forall (fun l => plain l = true) (x :: ls) ->
    JS.split Liquid.lineBreak (JS.join CRLF (x :: ls)) = x :: ls.
Proof.
  unfold JS.split.
  induction ls as [|y ls IH]; intros x H; inversion H as [|? ? Hx Hrest]; subst.
  - now apply split_go_line_end.
  - change (JS.join CRLF (x :: y :: ls))
      with (x ++ CRLF ++ JS.join CRLF (y :: ls)).
    rewrite split_go_plain by assumption.
    unfold CRLF at 1. cbn [append JS.split_go]. rewrite matchAt_lineBreak.
    cbn [Ascii.eqb Bool.eqb]. rewrite rev_string_push_chars.
    cbn [JS.rev_string]. rewrite append_empty_r. f_equal. now apply IH.
Qed.

(** X4. Lines joined by line feeds, or by carriage return and line feed,
    split back into the same lines, so the validator reports the same
    diagnostics whichever of the two terminators the document uses. *)
Theorem line_terminator_independent (first : string) (rest : list string) :
  Forall (fun l => plain l = true) (first :: rest) ->
  linesOf (JS.join LF (first :: rest)) = first :: rest
  /\ linesOf (JS.join CRLF (first :: rest)) = first :: rest
  /\ Validator.validateLiquidSyntax (JS.join CRLF (first :: rest))
     = Validator.validateLiquidSyntax (JS.join LF (first :: rest)).
Proof.
  intros H. pose proof (split_join_LF rest first H) as E1.
  pose proof (split_join_CRLF rest first H) as E2.
  unfold linesOf, Validator.validateLiquidSyntax.
  rewrite E1, E2. repeat split.
Qed.

Lemma line_terminator_independent_witness :
  Validator.validateLiquidSyntax
    (JS.join CRLF ["{% if user %}"; "  Hello, {{ user.name"; "{% endfor %}"])
  = Validator.validateLiquidSyntax
      (JS.join LF ["{% if user %}"; "  Hello, {{ user.name"; "{% endfor %}"]).
Proof.
  apply (line_terminator_independent
           "{% if user %}" ["  Hello, {{ user.name"; "{% endfor %}"]).
  repeat constructor.
Defined.

(** ** Blocks written one tag to a line *)












Lemma all_chars_app (p : ascii -> bool) (a b : string) :
  all_chars p (a ++ b) = all_chars p a && all_chars p b.
Proof.
  induction a as [|c a IH]; simpl; [reflexivity|].
  rewrite IH. now rewrite andb_assoc.
Qed.

Lemma all_chars_impl (p q : ascii -> bool) (s : string) :
  (forall c, p c = true -> q c = true) ->
  all_chars p s = true -> all_chars q s = true.
Proof.
  intros Hpq. induction s as [|c s IH]; simpl; [reflexivity|].
  intros H. apply andb_prop in H as [Hc Hs]. now rewrite (Hpq c Hc), IH.
Qed.

















(** ** A line with one output expression *)















(** ** An output expression over several lines *)











(** ** Index segments *)

Lemma isIndex_digits (segment : string) :
  Schema.isIndex segment = digits segment.
Proof.
  unfold Schema.isIndex, JS.test_anchored, JS.matchAt, digits.
  destruct segment as [|c s]; [reflexivity|].
  cbn [JS.rmatch all_chars]. destruct (JS.is_digit c); [|reflexivity].
  rewrite star_to_end by reflexivity.
  destruct (all_chars JS.is_digit s); reflexivity.
Qed.

Lemma navigateSchema_index (schema : Zod.ZodType) (i : string)
      (path : list string) :
  digits i = true ->
  Schema.navigateSchema schema (i :: path)
  = Schema.navigateSchema
      (Schema.arrayElement (Schema.unwrapSchema schema)) path.
Proof.
  intros H. unfold Schema.navigateSchema. cbn [Schema.navigateLoop].
  unfold Schema.navigateStep. rewrite isIndex_digits, H.
  rewrite unwrapSchema_idempotent. symmetry. apply navigateLoop_unwrap.
Qed.

(** X6. A segment of decimal digits never fails and consumes no field: the
    path goes on from the element of an array, and from the descriptor
    itself when it is no array; so a path of such segments alone always
    resolves. *)
Theorem index_segments_never_fail (schema : Zod.ZodType) (i : string)
        (path : list string) :
  digits i = true ->
  Schema.navigateSchema schema (i :: path)
  = Schema.navigateSchema
      (Schema.arrayElement (Schema.unwrapSchema schema)) path
  /\ (forallb digits path = true ->
      exists result, Schema.navigateSchema schema (i :: path) = Some result).
Proof.
  intros H. split; [now apply navigateSchema_index|].
  rewrite (navigateSchema_index schema i path H).
  generalize (Schema.arrayElement (Schema.unwrapSchema schema)) as s.
  induction path as [|j path IH]; intros s Hp.
  - eexists. reflexivity.
  - simpl in Hp. apply andb_prop in Hp as [Hj Hp].
    rewrite (navigateSchema_index s j path Hj). now apply IH.
Qed.

Lemma index_segments_never_fail_witness :
  Schema.navigateSchema Zod.ZodString ["0"; "12"] = Some Zod.ZodString
  /\ Schema.navigateSchema
       (Zod.ZodArray (Zod.ZodArray (Zod.ZodOptional Zod.ZodNumber))) ["0"; "12"]
     = Some Zod.ZodNumber.
Proof.
  split.
  - rewrite (proj1 (index_segments_never_fail Zod.ZodString "0" ["12"]
                      eq_refl)).
    reflexivity.
  - rewrite (proj1 (index_segments_never_fail
                      (Zod.ZodArray (Zod.ZodArray (Zod.ZodOptional Zod.ZodNumber)))
                      "0" ["12"] eq_refl)).
    reflexivity.
Defined.

(** X7. Resolution follows the path piece by piece: resolving [p ++ q] is
    resolving [p] and then [q] against the result, so a path fails as soon
    as one of its prefixes fails, whatever follows. *)
Theorem resolution_of_concatenation :
  (forall schema p q,
      Schema.navigateSchema schema (p ++ q)
      = match Schema.navigateSchema schema p with
        | Some result => Schema.navigateSchema result q
        | None => None
        end)
  /\ (forall schema p q,
         Schema.navigateSchema schema p = None ->
         Schema.navigateSchema schema (p ++ q) = None)
  /\ (forall schema p q result,
         Schema.navigateSchema schema (p ++ q) = Some result ->
         exists middle,
           Schema.navigateSchema schema p = Some middle
           /\ Schema.navigateSchema middle q = Some result).
Proof.
  split; [exact navigateSchema_app|]. split.
  - intros schema p q H. now rewrite navigateSchema_app, H.
  - intros schema p q result H. rewrite navigateSchema_app in H.
    destruct (Schema.navigateSchema schema p) as [middle|]; [|discriminate].
    now exists middle.
Qed.

(** ** Completions and hover *)

Lemma ownProperty_first {V : Type} (obj : list (string * V)) (k : string)
      (v : V) :
  NoDup (map fst obj) -> In (k, v) obj -> Zod.ownProperty obj k = Some v.
Proof.
  induction obj as [|[k' v'] obj IH]; intros Hnd Hin; [contradiction|].
  simpl in *. inversion Hnd as [|? ? Hnot Hnd']; subst.
  destruct Hin as [E|Hin].
  - injection E as -> ->. now rewrite String.eqb_refl.
  - destruct (String.eqb k' k) eqn:Ek.
    + apply String.eqb_eq in Ek. subst k'. exfalso. apply Hnot.
      apply in_map_iff. now exists (k, v).
    + now apply IH.
Qed.

(** X8. What completion offers, hover confirms: the detail shown for a
    field offered after a path is the type hover reports for the path
    extended by that field, when the field's name is not a number.  (The
    fields of an object have distinct names.) *)
Theorem completion_detail_is_hover_type
        (schema : Zod.ZodType) (path : list string) (range : Completion.Range)
        (result : Zod.ZodType) (shape : list (string * Zod.ZodType))
        (item : Completion.CompletionItem) :
  Schema.navigateSchema schema path = Some result ->
  Schema.arrayElement (Schema.unwrapSchema result) = Zod.ZodObject shape ->
  NoDup (map fst shape) ->
  In item (Completion.getSuggestionsFromSchema schema path range) ->
  digits (Completion.label item) = false ->
  Schema.getTypeInfoFromSchema schema (path ++ [Completion.label item])
  = Completion.detail item.
Proof.
  intros Hnav Hobj Hnd Hin Hdig.
  unfold Completion.getSuggestionsFromSchema in Hin.
  rewrite Hnav, Hobj in Hin. apply in_map_iff in Hin as ([k v] & <- & Hkv).
  cbn [fst snd Completion.label Completion.detail] in *.
  unfold Schema.getTypeInfoFromSchema.
  rewrite navigateSchema_app, Hnav.
  unfold Schema.navigateSchema. cbn [Schema.navigateLoop].
  rewrite navigateStep_unwrap. unfold Schema.navigateStep.
  rewrite isIndex_digits, Hdig, Hobj, (ownProperty_first shape k v Hnd Hkv).
  now rewrite getTypeString_unwrap.
Qed.

Lemma completion_detail_is_hover_type_witness :
  Schema.getTypeInfoFromSchema
    (Zod.ZodObject
       [("cart", Zod.ZodOptional
                   (Zod.ZodArray
                      (Zod.ZodObject [("price", Zod.ZodNullable Zod.ZodNumber);
                                      ("name", Zod.ZodString)])))])
    (["cart"] ++ ["price"])
  = Some "Number".
Proof.
  apply (completion_detail_is_hover_type
           (Zod.ZodObject
              [("cart", Zod.ZodOptional
                          (Zod.ZodArray
                             (Zod.ZodObject
                                [("price", Zod.ZodNullable Zod.ZodNumber);
                                 ("name", Zod.ZodString)])))])
           ["cart"] (Completion.mkRange 1 1 1 1)
           (Zod.ZodArray
              (Zod.ZodObject [("price", Zod.ZodNullable Zod.ZodNumber);
                              ("name", Zod.ZodString)]))
           [("price", Zod.ZodNullable Zod.ZodNumber); ("name", Zod.ZodString)]
           (Completion.mkItem "price" Completion.KindProperty "price"
              (Some "Number") (Some "**Type:** `Number`")
              (Completion.mkRange 1 1 1 1) "1price")).
  - reflexivity.
  - reflexivity.
  - repeat constructor; simpl; intuition discriminate.
  - left. reflexivity.
  - reflexivity.
Defined.

(** A field whose name is a number is offered by completion but read as an
    index by the resolver. *)
Example numeric_field_name :
  map Completion.label
      (Completion.getSuggestionsFromSchema
         (Zod.ZodObject [("0", Zod.ZodString)]) [] (Completion.mkRange 1 1 1 1))
  = ["0"]
  /\ Schema.getTypeInfoFromSchema (Zod.ZodObject [("0", Zod.ZodString)]) ["0"]
     = Some "Object".
Proof. split; reflexivity. Qed.

(** X9. Completion looks through wrappers and through one array: the fields
    offered for a wrapped descriptor are those of the descriptor, the fields
    offered for an array of objects are those of the element, and the kind
    of a suggestion does not depend on wrappers. *)
Theorem completion_through_wrappers_and_arrays :
  (forall ws schema path range,
      Completion.getSuggestionsFromSchema (wrap ws schema) path range
      = Completion.getSuggestionsFromSchema schema path range)
  /\ (forall ws schema,
         Completion.getCompletionKindForSchema (wrap ws schema)
         = Completion.getCompletionKindForSchema schema)
  /\ (forall ws ws' shape range,
         Completion.getSuggestionsFromSchema
           (wrap ws (Zod.ZodArray (wrap ws' (Zod.ZodObject shape)))) [] range
         = Completion.getSuggestionsFromSchema (Zod.ZodObject shape) [] range)
  /\ (forall ws schema path,
         Schema.getTypeInfoFromSchema (wrap ws schema) path
         = Schema.getTypeInfoFromSchema schema path).
Proof.
  repeat split.
  - intros. unfold Completion.getSuggestionsFromSchema.
    now rewrite navigateSchema_wrap.
  - intros. unfold Completion.getCompletionKindForSchema.
    now rewrite unwrapSchema_wrap.
  - intros. unfold Completion.getSuggestionsFromSchema.
    rewrite navigateSchema_wrap. unfold Schema.navigateSchema.
    cbn [Schema.navigateLoop Schema.unwrapSchema Schema.arrayElement].
    now rewrite unwrapSchema_wrap.
  - intros. unfold Schema.getTypeInfoFromSchema.
    now rewrite navigateSchema_wrap.
Qed.

(** ** No path before the cursor *)

Lemma path_start_is_path_char (c : ascii) :
  Completion.is_path_start c = true -> Completion.is_path_char c = true.
Proof.
  unfold Completion.is_path_start, Completion.is_path_char, JS.is_word.
  intros H. apply orb_prop in H as [H|H]; rewrite H; simpl;
    rewrite ?orb_true_r; reflexivity.
Qed.

Lemma path_grammar_chars (s : string) :
  path_grammar s = true -> all_chars Completion.is_path_char s = true.
Proof.
  destruct s as [|c s]; [discriminate|]. simpl. intros H.
  apply andb_prop in H as [Hc Hs]. now rewrite (path_start_is_path_char c Hc).
Qed.

Lemma all_chars_last (p : ascii -> bool) (s : string) (c : ascii) :
  all_chars p s = true -> last_char s = Some c -> p c = true.
Proof.
  induction s as [|a s IH]; [discriminate|].
  cbn [all_chars last_char]. intros H Hl. apply andb_prop in H as [Ha Hs].
  destruct s as [|b s]; [now injection Hl as <- | now apply IH].
Qed.

Lemma last_char_None (s : string) : last_char s = None -> s = "".
Proof.
  induction s as [|a s IH]; [reflexivity|]. cbn [last_char].
  destruct s as [|b s]; [discriminate|]. intros H. now specialize (IH H).
Qed.

Lemma suffix_last_char (t s : string) :
  suffix_of t s -> t <> "" -> last_char t = last_char s.
Proof.
  induction 1 as [s|c s t Hs IH]; intros Hne; [reflexivity|].
  rewrite (IH Hne). cbn [last_char].
  destruct s as [|b s]; [|reflexivity].
  inversion Hs; subst. contradiction.
Qed.

(** X10. With the cursor at the start of the line or after a character that
    cannot stand in a path, there is no path, and completion offers the
    variables of the schema set, one suggestion each, in their order. *)
Theorem no_path_offers_variables
        (model : Completion.ITextModel) (position : Monaco.Position)
        (schemas : list (string * Zod.ZodType)) :
  ends_outside_path
    (substring 0 (Monaco.column position - 1)
       (Completion.getLineContent model (Monaco.lineNumber position))) = true ->
  Completion.getVariablePathAtPosition model position = None
  /\ Completion.getSchemaSuggestions model position schemas
     = map (fun entry =>
              Completion.mkItem (fst entry) Completion.KindVariable (fst entry)
                None None
                (Completion.mkRange
                   (Monaco.lineNumber position)
                   (Completion.startColumn
                      (Completion.getWordUntilPosition model position))
                   (Monaco.lineNumber position)
                   (Completion.endColumn
                      (Completion.getWordUntilPosition model position)))
                ("0" ++ fst entry))
           schemas.
Proof.
  intros H.
  assert (E : Completion.getVariablePathAtPosition model position = None).
  { unfold Completion.getVariablePathAtPosition, JS.exec.
    set (text := substring 0 (Monaco.column position - 1)
                   (Completion.getLineContent model
                      (Monaco.lineNumber position))) in *.
    pose proof (search_variablePath text 0) as S.
    destruct (JS.search Completion.variablePathRegex text 0) as [m|];
      [|reflexivity].
    exfalso. destruct S as (Hs & Hg & _).
    assert (Hne : JS.matched m <> "").
    { intros E. rewrite E in Hg. discriminate. }
    pose proof (suffix_last_char _ _ Hs Hne) as Hl.
    unfold ends_outside_path in H. rewrite <- Hl in H.
    destruct (last_char (JS.matched m)) as [c|] eqn:Ec.
    - rewrite (all_chars_last _ _ _ (path_grammar_chars _ Hg) Ec) in H.
      discriminate.
    - now apply Hne, last_char_None. }
  split; [exact E|].
  unfold Completion.getSchemaSuggestions. now rewrite E.
Qed.

Lemma no_path_offers_variables_witness :
  map Completion.label
      (Completion.getSchemaSuggestions
         (Completion.mkModel (fun _ => "{{ user.name | }}")
                             (fun _ => Completion.mkWord "" 16 16))
         (Monaco.mkPosition 1 16)
         [("user", Zod.ZodObject []); ("cart", Zod.ZodArray Zod.ZodString)])
  = ["user"; "cart"].
Proof.
  rewrite (proj2 (no_path_offers_variables
                    (Completion.mkModel (fun _ => "{{ user.name | }}")
                                        (fun _ => Completion.mkWord "" 16 16))
                    (Monaco.mkPosition 1 16)
                    [("user", Zod.ZodObject []);
                     ("cart", Zod.ZodArray Zod.ZodString)]
                    eq_refl)).
  reflexivity.
Defined.

(** ** Path segments *)

Lemma concat_empty_cons (x : string) (xs : list string) :
  String.concat "" (x :: xs) = x ++ String.concat "" xs.
Proof.
  destruct xs as [|y xs]; simpl; [now rewrite append_empty_r | reflexivity].
Qed.

Lemma rev_string_app (cur : list ascii) :
  forall t u, JS.rev_string cur t ++ u = JS.rev_string cur (t ++ u).
Proof.
  induction cur as [|c cur IH]; intros t u; simpl; [reflexivity|].
  now rewrite IH.
Qed.

Lemma pieces_concat (s : string) :
  forall cur,
    String.concat "" (pieces s cur) = JS.rev_string cur (drop_separators s).
Proof.
  induction s as [|c s IH]; intros cur; cbn [pieces drop_separators].
  - reflexivity.
  - destruct (is_separator c).
    + rewrite concat_empty_cons, IH. cbn [JS.rev_string].
      now rewrite rev_string_app.
    + rewrite IH. reflexivity.
Qed.

Lemma pieces_chars (s : string) :
  forall cur,
    forallb not_separator cur = true ->
    Forall (fun piece => all_chars not_separator piece = true) (pieces s cur).
Proof.
  induction s as [|c s IH]; intros cur Hc; cbn [pieces].
  - constructor; [|constructor]. now rewrite all_chars_rev_string, Hc.
  - destruct (is_separator c) eqn:E.
    + constructor; [now rewrite all_chars_rev_string, Hc | now apply IH].
    + apply IH. simpl. unfold not_separator at 1. now rewrite E, Hc.
Qed.

Lemma concat_filter_nonempty (l : list string) :
  String.concat ""
    (filter (fun segment => negb (String.eqb segment "")) l)
  = String.concat "" l.
Proof.
  induction l as [|x l IH]; [reflexivity|].
  cbn [filter]. destruct (String.eqb x "") eqn:E; cbn [negb].
  - apply String.eqb_eq in E. subst x. now rewrite concat_empty_cons, IH.
  - now rewrite !concat_empty_cons, IH.
Qed.

(** X11. Whatever the string, its path segments are not empty and hold no
    dot or square bracket, and put together they are the string without its
    dots and square brackets. *)
Theorem pathSegments_partition (s : string) :
  Forall (fun segment => is_segment segment = true) (Completion.pathSegments s)
  /\ String.concat "" (Completion.pathSegments s) = drop_separators s.
Proof.
  unfold Completion.pathSegments, JS.split. rewrite split_pathSeparator.
  split.
  - apply Forall_forall. intros x Hx. apply filter_In in Hx as [Hin Hne].
    pose proof (pieces_chars s [] eq_refl) as H.
    rewrite Forall_forall in H. unfold is_segment. now rewrite Hne, (H x Hin).
  - now rewrite concat_filter_nonempty, pieces_concat.
Qed.

Lemma pieces_segment (x : string) :
  forall t cur,
    all_chars not_separator x = true ->
    pieces (x ++ t) cur = pieces t (push_chars x cur).
Proof.
  induction x as [|c x IH]; intros t cur H; [reflexivity|].
  cbn [all_chars] in H. apply andb_prop in H as [Hc Hx].
  unfold not_separator in Hc. apply negb_true_iff in Hc.
  cbn [append pieces push_chars]. rewrite Hc. now apply IH.
Qed.

Lemma pieces_join (segs : list string) :
  forall x,
    Forall (fun segment => is_segment segment = true) (x :: segs) ->
    pieces (JS.join "." (x :: segs)) [] = x :: segs.
Proof.
  induction segs as [|y segs IH]; intros x H;
    inversion H as [|? ? Hx Hrest]; subst;
    unfold is_segment in Hx; apply andb_prop in Hx as [_ Hx].
  - cbn [JS.join]. rewrite <- (append_empty_r x) at 1.
    rewrite pieces_segment by assumption. cbn [pieces].
    rewrite rev_string_push_chars. cbn [JS.rev_string].
    now rewrite append_empty_r.
  - change (JS.join "." (x :: y :: segs))
      with (x ++ "." ++ JS.join "." (y :: segs)).
    rewrite pieces_segment by assumption. cbn [append pieces].
    change (is_separator ".") with true. cbv iota.
    rewrite rev_string_push_chars. cbn [JS.rev_string].
    rewrite append_empty_r. f_equal. now apply IH.
Qed.

Lemma filter_segments (segs : list string) :
  Forall (fun segment => is_segment segment = true) segs ->
  filter (fun segment => negb (String.eqb segment "")) segs = segs.
Proof.
  intros H. apply forallb_filter_id. apply forallb_forall. intros s Hs.
  rewrite Forall_forall in H. specialize (H s Hs). unfold is_segment in H.
  now apply andb_prop in H as [H _].
Qed.

Lemma pathSegments_join (segs : list string) :
  Forall (fun segment => is_segment segment = true) segs ->
  Completion.pathSegments (JS.join "." segs) = segs.
Proof.
  intros H. unfold Completion.pathSegments, JS.split.
  rewrite split_pathSeparator.
  destruct segs as [|x segs]; [reflexivity|].
  rewrite (pieces_join segs x H). now apply filter_segments.
Qed.

(** X12. Splitting the dotted form of a path gives the path back: for
    segments that are not empty and hold no dot or square bracket, the
    segments of their join with dots are the segments themselves. *)
Theorem pathSegments_of_dotted (segs : list string) :
  Forall (fun segment => is_segment segment = true) segs ->
  Completion.pathSegments (JS.join "." segs) = segs.
Proof. exact (pathSegments_join segs). Qed.

Lemma pathSegments_of_dotted_witness :
  Completion.pathSegments (JS.join "." ["order"; "cart"; "0"; "my-product"])
  = ["order"; "cart"; "0"; "my-product"].
Proof.
  apply (pathSegments_of_dotted ["order"; "cart"; "0"; "my-product"]).
  repeat constructor.
Defined.

(** ** The two path extractors *)

Lemma matchAt_variablePath_index_ts (s : string) :
  JS.matchAt IndexTsSchema.variablePathRegex s
  = if path_grammar_index_ts s then Some (String.length s, None) else None.
Proof.
  unfold JS.matchAt, IndexTsSchema.variablePathRegex. simpl.
  destruct s as [|c rest]; simpl; [reflexivity|].
  destruct (Completion.is_path_start c); simpl; [|reflexivity].
  rewrite star_to_end by reflexivity.
  destruct (all_chars IndexTsSchema.is_path_char rest); reflexivity.
Qed.

Lemma search_variablePath_index_ts (s : string) :
  forall idx,
    match JS.search IndexTsSchema.variablePathRegex s idx with
    | Some m =>
        suffix_of (JS.matched m) s
        /\ path_grammar_index_ts (JS.matched m) = true
    | None => True
    end.
Proof.
  induction s as [|c s IH]; intros idx.
  - simpl. exact I.
  - cbn [JS.search]. rewrite matchAt_variablePath_index_ts.
    destruct (path_grammar_index_ts (String c s)) eqn:G.
    + cbn [JS.matched]. rewrite substring_all. split; [constructor | exact G].
    + specialize (IH (S idx)).
      destruct (JS.search IndexTsSchema.variablePathRegex s (S idx)) as [m|];
        [|exact I].
      destruct IH as [Hs Hg]. split; [now constructor | exact Hg].
Qed.

Lemma index_ts_path_char (c : ascii) :
  IndexTsSchema.is_path_char c = true -> Completion.is_path_char c = true.
Proof.
  unfold IndexTsSchema.is_path_char, Completion.is_path_char.
  destruct (JS.is_word c), (Ascii.eqb c "."), (Ascii.eqb c "["),
    (Ascii.eqb c "]"), (Ascii.eqb c "-"); simpl; auto.
Qed.

Lemma path_char_without_hyphen (c : ascii) :
  not_hyphen c = true ->
  Completion.is_path_char c = IndexTsSchema.is_path_char c.
Proof.
  unfold not_hyphen, IndexTsSchema.is_path_char, Completion.is_path_char.
  intros H. apply negb_true_iff in H. rewrite H.
  destruct (JS.is_word c), (Ascii.eqb c "."), (Ascii.eqb c "["),
    (Ascii.eqb c "]"); reflexivity.
Qed.

Lemma grammar_index_ts_included (s : string) :
  path_grammar_index_ts s = true -> path_grammar s = true.
Proof.
  destruct s as [|c s]; [discriminate|]. simpl. intros H.
  apply andb_prop in H as [Hc Hs]. rewrite Hc. simpl.
  apply (all_chars_impl IndexTsSchema.is_path_char); [|exact Hs].
  exact index_ts_path_char.
Qed.

Lemma grammar_without_hyphen (s : string) :
  all_chars not_hyphen s = true -> path_grammar_index_ts s = path_grammar s.
Proof.
  destruct s as [|c s]; [reflexivity|]. simpl. intros H.
  apply andb_prop in H as [_ Hs]. f_equal.
  induction s as [|a s IH]; [reflexivity|]. simpl in *.
  apply andb_prop in Hs as [Ha Hs].
  now rewrite (path_char_without_hyphen a Ha), IH.
Qed.

Lemma search_without_hyphen (s : string) :
  all_chars not_hyphen s = true ->
  forall idx,
    JS.search IndexTsSchema.variablePathRegex s idx
    = JS.search Completion.variablePathRegex s idx.
Proof.
  induction s as [|c s IH]; intros H idx.
  - reflexivity.
  - cbn [JS.search].
    rewrite matchAt_variablePath_index_ts, matchAt_variablePath.
    rewrite (grammar_without_hyphen _ H).
    destruct (path_grammar (String c s)); [reflexivity|].
    apply IH. simpl in H. now apply andb_prop in H as [_ H].
Qed.

(** X13. The extractor of [src/index.ts] takes no hyphen into a path: what
    it returns is a suffix of what the current extractor returns for the same
    cursor, and the two return the same when the text before the cursor
    holds no hyphen. *)
Theorem extractors_compared
        (model : Completion.ITextModel) (position : Monaco.Position) :
  (forall q,
      IndexTsSchema.getVariablePathAtPosition model position = Some q ->
      exists p,
        Completion.getVariablePathAtPosition model position = Some p
        /\ suffix_of q p)
  /\ (all_chars not_hyphen
        (substring 0 (Monaco.column position - 1)
           (Completion.getLineContent model (Monaco.lineNumber position)))
      = true ->
      IndexTsSchema.getVariablePathAtPosition model position
      = Completion.getVariablePathAtPosition model position).
Proof.
  unfold IndexTsSchema.getVariablePathAtPosition,
    Completion.getVariablePathAtPosition, JS.exec.
  set (text := substring 0 (Monaco.column position - 1)
                 (Completion.getLineContent model (Monaco.lineNumber position))).
  split.
  - intros q Hq.
    pose proof (search_variablePath_index_ts text 0) as Hold.
    destruct (JS.search IndexTsSchema.variablePathRegex text 0) as [m|];
      [|discriminate].
    injection Hq as <-. destruct Hold as [Hs Hg].
    apply grammar_index_ts_included in Hg.
    pose proof (search_variablePath text 0) as Hnew.
    destruct (JS.search Completion.variablePathRegex text 0) as [m'|].
    + destruct Hnew as (_ & _ & Hmax). exists (JS.matched m'). auto.
    + rewrite (Hnew _ Hs) in Hg. discriminate.
  - intros H. now rewrite (search_without_hyphen text H 0).
Qed.

Example extractors_differ_on_hyphen :
  IndexTsSchema.getVariablePathAtPosition
    (Completion.mkModel (fun _ => "{{ my-variable") (fun _ => Completion.mkWord "" 1 1))
    (Monaco.mkPosition 1 15)
  = Some "variable"
  /\ Completion.getVariablePathAtPosition
       (Completion.mkModel (fun _ => "{{ my-variable") (fun _ => Completion.mkWord "" 1 1))
       (Monaco.mkPosition 1 15)
     = Some "my-variable".
Proof. split; vm_compute; reflexivity. Qed.

(** ** The resolver of [src/index.ts] *)







(** With a wrapper on the way the resolver of [src/index.ts] gives up or
    answers Unknown, where the current one looks through. *)
Example index_ts_resolver_on_wrappers :
  IndexTsSchema.getTypeInfoFromSchema
    (Zod.ZodOptional (Zod.ZodObject [("name", Zod.ZodString)])) ["name"] = None
  /\ Schema.getTypeInfoFromSchema
       (Zod.ZodOptional (Zod.ZodObject [("name", Zod.ZodString)])) ["name"]
     = Some "String"
  /\ IndexTsSchema.getTypeInfoFromSchema
       (Zod.ZodObject [("name", Zod.ZodNullable Zod.ZodString)]) ["name"]
     = Some "Unknown".
Proof. repeat split. Qed.

(** ** Which edits are validated *)

Lemma change_when_due (debounceMs : nat) (h : Debounce.host)
      (gap : nat) (value : string) :
  pending debounceMs h ->
  debounceMs <= gap ->
  let h' := Debounce.change debounceMs h (Debounce.now h + gap) value in
  pending debounceMs h'
  /\ Debounce.passes h' = (Debounce.passes h ++ [Debounce.text h])%list
  /\ Debounce.text h' = value.
Proof.
  destruct h as [n nh tm tx vt ps]. intros (handle & Ht & Hv) Hgap.
  simpl in Ht, Hv. subst tm vt.
  assert (E : (n + debounceMs <=? n + gap) = true)
    by (apply Nat.leb_le; lia).
  unfold Debounce.change, Debounce.advance, Debounce.onDidChangeContent.
  cbn [Debounce.timers Debounce.now filter snd fst]. rewrite E.
  cbn. repeat split. now exists nh.
Qed.

Lemma survivors_when_pending (debounceMs : nat) (rest : list (nat * string)) :
  forall (h : Debounce.host) (t : nat),
    pending debounceMs h ->
    Debounce.now (Debounce.burst debounceMs h rest) + debounceMs <= t ->
    Debounce.passes (Debounce.advance t (Debounce.burst debounceMs h rest))
    = (Debounce.passes h ++ survivors debounceMs (Debounce.text h) rest)%list.
Proof.
  induction rest as [|[gap value] rest IH]; intros h t Hp Ht.
  - cbn [Debounce.burst survivors] in *.
    now destruct (advance_after_due debounceMs h t Hp Ht) as (-> & _).
  - cbn [Debounce.burst survivors] in *.
    destruct (debounceMs <=? gap) eqn:E.
    + apply Nat.leb_le in E.
      destruct (change_when_due debounceMs h gap value Hp E)
        as (Hp' & Hpass & Htext).
      rewrite (IH _ t Hp' Ht), Hpass, Htext. now rewrite <- app_assoc.
    + apply Nat.leb_gt in E.
      destruct (change_when_pending debounceMs h gap value Hp E)
        as (Hp' & Hpass & Htext).
      rewrite (IH _ t Hp' Ht), Hpass, Htext. reflexivity.
Qed.

(** X15. Whatever the gaps between the edits, once the window after the
    last edit has passed the validation passes run are, in order, one for
    every edit followed by the next a window or more later, and one for the
    last edit, each on the text of its edit. *)
Theorem debounce_validates_survivors
        (debounceMs : nat) (h : Debounce.host)
        (gap0 : nat) (value0 : string) (rest : list (nat * string)) (t : nat) :
  Debounce.timers h = [] ->
  Debounce.validationTimeout h = None ->
  Debounce.now (Debounce.burst debounceMs h ((gap0, value0) :: rest))
  + debounceMs <= t ->
  Debounce.passes
    (Debounce.advance t (Debounce.burst debounceMs h ((gap0, value0) :: rest)))
  = (Debounce.passes h ++ survivors debounceMs value0 rest)%list.
Proof.
  intros Htm Hvt Ht. cbn [Debounce.burst] in *.
  destruct (change_when_idle debounceMs h gap0 value0 Htm Hvt)
    as (Hp & Hpass & Htext).
  rewrite (survivors_when_pending debounceMs rest _ t Hp Ht), Hpass, Htext.
  reflexivity.
Qed.

Lemma debounce_validates_survivors_witness :
  Debounce.passes
    (Debounce.advance 3000
       (Debounce.burst 300 attached
          [(1000, "a"); (120, "ab"); (300, "abc"); (299, "abcd")]))
  = ["{% if x %}"; "ab"; "abcd"].
Proof.
  apply (debounce_validates_survivors 300 attached 1000 "a"
           [(120, "ab"); (300, "abc"); (299, "abcd")] 3000).
  - reflexivity.
  - reflexivity.
  - vm_compute. lia.
Defined.

(** ** After dispose *)

Lemma advance_without_timers (t : nat) (h : Debounce.host) :
  Debounce.timers h = [] ->
  Debounce.timers (Debounce.advance t h) = []
  /\ Debounce.passes (Debounce.advance t h) = Debounce.passes h.
Proof.
  destruct h as [n nh tm tx vt ps]. simpl. intros ->. split; reflexivity.
Qed.

Lemma step_when_disposed (debounceMs : nat) (a : Attachment.attachment)
      (e : Attachment.event) :
  Attachment.listening a = false ->
  Debounce.timers (Attachment.host a) = [] ->
  let a' := Attachment.step debounceMs a e in
  Attachment.listening a' = false
  /\ Debounce.timers (Attachment.host a') = []
  /\ Debounce.passes (Attachment.host a') = Debounce.passes (Attachment.host a)
  /\ Attachment.clearedAt a' = Attachment.clearedAt a.
Proof.
  intros Hl Ht.
  destruct (advance_without_timers
              (match e with Attachment.Edit t _ | Attachment.Tick t => t end)
              (Attachment.host a) Ht) as [Ht' Hp'].
  destruct e as [t value|t]; unfold Attachment.step; rewrite ?Hl;
    cbn [Attachment.listening Attachment.host Attachment.clearedAt
         Debounce.timers Debounce.passes];
    repeat split; assumption.
Qed.

(** X16. After [dispose] nothing of the attachment is left: no timer is
    pending, whatever the host does next (edits, time passing) no validation
    pass runs, and the markers stay cleared. *)
Theorem dispose_leaves_nothing (debounceMs : nat)
        (a : Attachment.attachment) (events : list Attachment.event) :
  owns_its_timer (Attachment.host a) ->
  let a' := Attachment.run debounceMs (Attachment.dispose a) events in
  Debounce.timers (Attachment.host a') = []
  /\ Debounce.passes (Attachment.host a') = Debounce.passes (Attachment.host a)
  /\ Attachment.markersNow a' = [].
Proof.
  intros Hown a'.
  assert (H0 : Attachment.listening (Attachment.dispose a) = false
               /\ Debounce.timers (Attachment.host (Attachment.dispose a)) = []
               /\ Debounce.passes (Attachment.host (Attachment.dispose a))
                  = Debounce.passes (Attachment.host a)
               /\ Attachment.clearedAt (Attachment.dispose a)
                  = Some (List.length (Debounce.passes (Attachment.host a)))).
  { unfold Attachment.dispose.
    destruct a as [[n nh tm tx vt ps] l c].
    cbn [Attachment.host] in *.
    destruct Hown as [Ht|(handle & due & Ht & Hv)]; simpl in Ht; subst tm.
    - destruct vt; cbn; repeat split.
    - simpl in Hv. subst vt. cbn. rewrite Nat.eqb_refl. cbn. repeat split. }
  assert (G : forall evs b,
             Attachment.listening b = false ->
             Debounce.timers (Attachment.host b) = [] ->
             Debounce.timers
               (Attachment.host (Attachment.run debounceMs b evs)) = []
             /\ Debounce.passes
                  (Attachment.host (Attachment.run debounceMs b evs))
                = Debounce.passes (Attachment.host b)
             /\ Attachment.clearedAt (Attachment.run debounceMs b evs)
                = Attachment.clearedAt b).
  { induction evs as [|e evs IH]; intros b Hl Ht.
    - unfold Attachment.run. cbn [fold_left]. auto.
    - change (Attachment.run debounceMs b (e :: evs))
        with (Attachment.run debounceMs (Attachment.step debounceMs b e) evs).
      destruct (step_when_disposed debounceMs b e Hl Ht)
        as (Hl' & Ht' & Hp' & Hc').
      destruct (IH _ Hl' Ht') as (T & P & C).
      repeat split; [exact T | now rewrite P | now rewrite C]. }
  destruct H0 as (Hl & Ht & Hp & Hc).
  destruct (G events _ Hl Ht) as (T & P & C).
  fold a' in T, P, C.
  split; [exact T|]. split; [now rewrite P|].
  unfold Attachment.markersNow. rewrite C, Hc, P, Hp.
  now rewrite Nat.eqb_refl.
Qed.

Lemma dispose_leaves_nothing_witness :
  Debounce.passes
    (Attachment.host
       (Attachment.run 300
          (Attachment.dispose
             (Attachment.run 300 (Attachment.attach 0 "{% if x %}")
                [Attachment.Edit 1000 "{% if x %}{"]))
          [Attachment.Tick 1200; Attachment.Edit 1250 "x"; Attachment.Tick 5000]))
  = ["{% if x %}"].
Proof.
  refine (proj1 (proj2
            (dispose_leaves_nothing 300
               (Attachment.run 300 (Attachment.attach 0 "{% if x %}")
                  [Attachment.Edit 1000 "{% if x %}{"])
               [Attachment.Tick 1200; Attachment.Edit 1250 "x";
                Attachment.Tick 5000] _))).
  right. exists 0, 1300. split; reflexivity.
Defined.

(** ** The order of the suggestions *)

Lemma schema_suggestion_sortText
      (model : Completion.ITextModel) (position : Monaco.Position)
      (schemas : list (string * Zod.ZodType))
      (item : Completion.CompletionItem) :
  In item (Completion.getSchemaSuggestions model position schemas) ->
  Completion.sortText item = "0" ++ Completion.label item
  \/ Completion.sortText item = "1" ++ Completion.label item.
Proof.
  unfold Completion.getSchemaSuggestions.
  destruct (match Completion.getVariablePathAtPosition model position with
            | Some p => negb (String.eqb p "")
            | None => false
            end).
  - destruct (Zod.ownProperty schemas _) as [schema|]; [|contradiction].
    unfold Completion.getSuggestionsFromSchema.
    destruct (Schema.navigateSchema schema _) as [navigated|]; [|contradiction].
    destruct (Schema.arrayElement (Schema.unwrapSchema navigated));
      try contradiction.
    intros H. apply in_map_iff in H as (e & <- & _). now right.
  - intros H. apply in_map_iff in H as (e & <- & _). now left.
Qed.

(** X17. Keywords are offered at every position, with or without schemas,
    as the first suggestions of the list and with an empty range at the
    cursor; the suggestions drawn from the schemas follow them in the list,
    and every one of them sorts before every keyword, its sort text
    beginning with 0 or 1 and theirs with 2. *)
Theorem schema_suggestions_sort_first
        (model : Completion.ITextModel) (position : Monaco.Position) :
  (forall schemas a b,
      In a (Completion.getSchemaSuggestions model position schemas) ->
      In b (Providers.getKeywordSuggestions position) ->
      String.compare (Completion.sortText a) (Completion.sortText b) = Lt)
  /\ (forall b,
         In b (Providers.getKeywordSuggestions position) ->
         Completion.kind b = Completion.KindKeyword
         /\ Completion.sortText b = "2" ++ Completion.label b
         /\ Completion.range b
            = Completion.mkRange
                (Monaco.lineNumber position) (Monaco.column position)
                (Monaco.lineNumber position) (Monaco.column position))
  /\ map Completion.label (Providers.getKeywordSuggestions position)
     = Providers.keywords
  /\ (forall schemas,
         map Completion.label
             (firstn (List.length Providers.keywords)
                     (Providers.provideCompletionItems model (Some schemas)
                                                       position))
         = Providers.keywords
         /\ skipn (List.length Providers.keywords)
                  (Providers.provideCompletionItems model (Some schemas)
                                                    position)
            = Completion.getSchemaSuggestions model position schemas)
  /\ map Completion.label (Providers.provideCompletionItems model None position)
     = Providers.keywords.
Proof.
  assert (L : map Completion.label (Providers.getKeywordSuggestions position)
              = Providers.keywords).
  { unfold Providers.getKeywordSuggestions. rewrite map_map.
    cbn [Completion.label]. apply map_id. }
  assert (N : List.length (Providers.getKeywordSuggestions position)
              = List.length Providers.keywords).
  { unfold Providers.getKeywordSuggestions. apply length_map. }
  split; [|split; [|split; [exact L | split]]].
  - intros schemas a b Ha Hb.
    unfold Providers.getKeywordSuggestions in Hb.
    apply in_map_iff in Hb as (k & <- & _). cbn [Completion.sortText].
    destruct (schema_suggestion_sortText _ _ _ _ Ha) as [-> | ->]; reflexivity.
  - intros b Hb. unfold Providers.getKeywordSuggestions in Hb.
    apply in_map_iff in Hb as (k & <- & _). repeat split.
  - intros schemas. unfold Providers.provideCompletionItems. split.
    + rewrite firstn_app, N, Nat.sub_diag. cbn [firstn].
      rewrite app_nil_r, <- N, firstn_all. exact L.
    + rewrite skipn_app, N, Nat.sub_diag. cbn [skipn].
      now rewrite <- N, skipn_all.
  - unfold Providers.provideCompletionItems. now rewrite app_nil_r.
Qed.

Lemma schema_suggestions_sort_first_witness :
  String.compare "1name" "2if" = Lt.
Proof.
  refine (proj1
            (schema_suggestions_sort_first
               (Completion.mkModel (fun _ => "{{ user.")
                                   (fun _ => Completion.mkWord "" 9 9))
               (Monaco.mkPosition 1 9))
            [("user", Zod.ZodObject [("name", Zod.ZodString)])]
            (Completion.mkItem "name" Completion.KindProperty "name"
               (Some "String") (Some "**Type:** `String`")
               (Completion.mkRange 1 9 1 9) "1name")
            (Completion.mkItem "if" Completion.KindKeyword "if" None None
               (Completion.mkRange 1 9 1 9) "2if")
            _ _).
  - left. reflexivity.
  - vm_compute. intuition.
Defined.

(** ** From the text to the providers *)

Lemma suffix_same_length (a b : string) :
  suffix_of a b -> String.length b <= String.length a -> a = b.
Proof.
  induction 1 as [s|c s t Hs IH]; intros H; [reflexivity|].
  apply suffix_of_length in Hs. simpl in H. lia.
Qed.

Lemma suffix_between (p w t : string) :
  suffix_of t (p ++ w) -> suffix_of w t ->
  exists p', t = p' ++ w /\ suffix_of p' p.
Proof.
  induction p as [|c p IH]; intros Ht Hw.
  - exists "". split; [|constructor]. simpl in *.
    apply suffix_same_length; [assumption|]. now apply suffix_of_length.
  - simpl in Ht. inversion Ht as [|? ? ? Ht']; subst.
    + exists (String c p). split; [reflexivity | constructor].
    + destruct (IH Ht' Hw) as (p' & E & Hp'). exists p'.
      split; [assumption | now constructor].
Qed.

(** A path written after text that ends outside a path is what the
    extractor returns. *)
Lemma extract_written_path (model : Completion.ITextModel)
      (position : Monaco.Position) (prefix w : string) :
  textBefore model position = prefix ++ w ->
  ends_outside_path prefix = true ->
  path_grammar w = true ->
  Completion.getVariablePathAtPosition model position = Some w.
Proof.
  intros Ht Hp Hw. unfold Completion.getVariablePathAtPosition, JS.exec.
  fold (textBefore model position). rewrite Ht.
  pose proof (search_variablePath (prefix ++ w) 0) as S.
  assert (Hsuf : suffix_of w (prefix ++ w)) by (apply suffix_of_app; eauto).
  destruct (JS.search Completion.variablePathRegex (prefix ++ w) 0) as [m|].
  - destruct S as (Hs & Hg & Hmax).
    destruct (suffix_between prefix w _ Hs (Hmax w Hsuf Hw))
      as (p' & E & Hp').
    destruct p' as [|c p']; [now rewrite E|]. exfalso.
    pose proof (path_grammar_chars _ Hg) as Hc. rewrite E in Hc.
    rewrite all_chars_app in Hc. apply andb_prop in Hc as [Hc _].
    assert (Hne : String c p' <> "") by discriminate.
    pose proof (suffix_last_char _ _ Hp' Hne) as Hl.
    unfold ends_outside_path in Hp. rewrite <- Hl in Hp.
    destruct (last_char (String c p')) as [z|] eqn:Ez.
    + rewrite (all_chars_last _ _ _ Hc Ez) in Hp. discriminate.
    + now apply last_char_None in Ez.
  - rewrite (S w Hsuf) in Hw. discriminate.
Qed.

Lemma join_path_chars (segs : list string) :
  Forall (fun s => is_key s = true) segs ->
  all_chars Completion.is_path_char (JS.join "." segs) = true.
Proof.
  induction 1 as [|x segs Hx _ IH]; [reflexivity|].
  unfold is_key in Hx. apply andb_prop in Hx as [_ Hx].
  destruct segs as [|y segs]; [exact Hx|].
  change (JS.join "." (x :: y :: segs)) with (x ++ "." ++ JS.join "." (y :: segs)).
  rewrite all_chars_app, Hx. cbn [append all_chars]. now rewrite IH.
Qed.

Lemma written_path_grammar (name : string) (path : list string) :
  is_name name = true ->
  Forall (fun s => is_key s = true) path ->
  path_grammar (JS.join "." (name :: path)) = true
  /\ Forall (fun s => is_segment s = true) (name :: path).
Proof.
  intros Hn Hp. unfold is_name in Hn. apply andb_prop in Hn as [Hg Hs].
  split.
  - destruct path as [|y path]; [exact Hg|].
    change (JS.join "." (name :: y :: path))
      with (name ++ "." ++ JS.join "." (y :: path)).
    destruct name as [|c name]; [discriminate|].
    cbn [path_grammar append] in *. apply andb_prop in Hg as [Hc Hr].
    rewrite Hc, all_chars_app, Hr. cbn [append all_chars andb].
    now rewrite (join_path_chars (y :: path) Hp).
  - constructor.
    + unfold is_segment. rewrite Hs. destruct name; [discriminate|reflexivity].
    + apply Forall_forall. intros s Hin. rewrite Forall_forall in Hp.
      specialize (Hp s Hin). unfold is_key in Hp.
      now apply andb_prop in Hp as [Hp _].
Qed.

Lemma pieces_join_dot (segs : list string) :
  forall x,
    Forall (fun segment => is_segment segment = true) (x :: segs) ->
    pieces (JS.join "." (x :: segs) ++ ".") [] = (x :: segs ++ [""])%list.
Proof.
  induction segs as [|y segs IH]; intros x H;
    inversion H as [|? ? Hx Hrest]; subst;
    unfold is_segment in Hx; apply andb_prop in Hx as [_ Hx].
  - cbn [JS.join]. rewrite pieces_segment by assumption. cbn [pieces].
    change (is_separator ".") with true. cbv iota.
    rewrite rev_string_push_chars. cbn [JS.rev_string].
    now rewrite append_empty_r.
  - change (JS.join "." (x :: y :: segs))
      with (x ++ "." ++ JS.join "." (y :: segs)).
    rewrite append_assoc. rewrite pieces_segment by assumption.
    cbn [append pieces]. change (is_separator ".") with true. cbv iota.
    rewrite rev_string_push_chars. cbn [JS.rev_string].
    rewrite append_empty_r. cbn [app]. f_equal. now apply IH.
Qed.

Lemma pathSegments_join_dot (x : string) (segs : list string) :
  Forall (fun segment => is_segment segment = true) (x :: segs) ->
  Completion.pathSegments (JS.join "." (x :: segs) ++ ".") = x :: segs.
Proof.
  intros H. unfold Completion.pathSegments, JS.split.
  rewrite split_pathSeparator, (pieces_join_dot segs x H).
  change (x :: segs ++ [""])%list with ((x :: segs) ++ [""])%list.
  rewrite filter_app, (filter_segments (x :: segs) H).
  cbn [filter String.eqb negb]. now rewrite app_nil_r.
Qed.

(** X18. Hover, from the text to the type: with the cursor at the end of a
    dotted path written after text that ends outside a path, hover looks the
    first name up in the schema set, resolves the keys after it and shows
    the rendering of the result; it shows nothing when the name is unknown,
    the path does not resolve or the rendering is empty. *)
Theorem hover_on_written_path
        (model : Completion.ITextModel)
        (schemas : list (string * Zod.ZodType))
        (word : option Completion.IWordAtPosition)
        (position : Monaco.Position)
        (prefix name : string) (path : list string) :
  textBefore model position = prefix ++ JS.join "." (name :: path) ->
  ends_outside_path prefix = true ->
  is_name name = true ->
  Forall (fun s => is_key s = true) path ->
  Providers.provideHover model (Some schemas) word position
  = match Zod.ownProperty schemas name with
    | None => None
    | Some schema =>
        match Schema.navigateSchema schema path with
        | None => None
        | Some result =>
            if String.eqb (Schema.getTypeString result) "" then None
            else
              Some (Providers.mkHover
                      (match word with
                       | Some w =>
                           Some (Completion.mkRange
                                   (Monaco.lineNumber position)
                                   (Completion.startColumn w)
                                   (Monaco.lineNumber position)
                                   (Completion.endColumn w))
                       | None => None
                       end)
                      ("**Type:** `" ++ Schema.getTypeString result ++ "`"))
        end
    end.
Proof.
  intros Ht Hp Hn Hk.
  destruct (written_path_grammar name path Hn Hk) as [Hg Hseg].
  unfold Providers.provideHover.
  rewrite (extract_written_path model position prefix _ Ht Hp Hg).
  replace (String.eqb (JS.join "." (name :: path)) "") with false
    by (destruct (JS.join "." (name :: path)); [discriminate | reflexivity]).
  rewrite (pathSegments_join (name :: path) Hseg).
  cbn [Completion.firstSegment hd tl].
  destruct (Zod.ownProperty schemas name) as [schema|]; [|reflexivity].
  unfold Schema.getTypeInfoFromSchema.
  destruct (Schema.navigateSchema schema path); reflexivity.
Qed.

Lemma hover_on_written_path_witness :
  Providers.provideHover
    (Completion.mkModel (fun _ => "Total: {{ order.cart[0].price | plus: 1 }}")
                        (fun _ => Completion.mkWord "cart" 17 21))
    (Some [("order",
            Zod.ZodObject
              [("cart",
                Zod.ZodArray
                  (Zod.ZodObject [("price", Zod.ZodOptional Zod.ZodNumber)]))])])
    (Some (Completion.mkWord "cart" 17 21))
    (Monaco.mkPosition 1 21)
  = Some (Providers.mkHover (Some (Completion.mkRange 1 17 1 21))
                            "**Type:** `Array<Object>`").
Proof.
  rewrite (hover_on_written_path
             (Completion.mkModel
                (fun _ => "Total: {{ order.cart[0].price | plus: 1 }}")
                (fun _ => Completion.mkWord "cart" 17 21))
             [("order",
               Zod.ZodObject
                 [("cart",
                   Zod.ZodArray
                     (Zod.ZodObject
                        [("price", Zod.ZodOptional Zod.ZodNumber)]))])]
             (Some (Completion.mkWord "cart" 17 21))
             (Monaco.mkPosition 1 21)
             "Total: {{ " "order" ["cart"]).
  - reflexivity.
  - reflexivity.
  - reflexivity.
  - reflexivity.
  - repeat constructor.
Defined.

(** X19. Completion, from the text to the fields: with the cursor after a
    dotted path and a dot, written after text that ends outside a path,
    completion looks the first name up in the schema set and offers the
    fields found at the keys after it; it offers nothing from the schemas
    when the name is unknown. *)
Theorem completion_after_written_path
        (model : Completion.ITextModel)
        (schemas : list (string * Zod.ZodType))
        (position : Monaco.Position)
        (prefix name : string) (path : list string) :
  textBefore model position = prefix ++ JS.join "." (name :: path) ++ "." ->
  ends_outside_path prefix = true ->
  is_name name = true ->
  Forall (fun s => is_key s = true) path ->
  Completion.getSchemaSuggestions model position schemas
  = match Zod.ownProperty schemas name with
    | Some schema =>
        Completion.getSuggestionsFromSchema schema path
          (Completion.mkRange
             (Monaco.lineNumber position)
             (Completion.startColumn
                (Completion.getWordUntilPosition model position))
             (Monaco.lineNumber position)
             (Completion.endColumn
                (Completion.getWordUntilPosition model position)))
    | None => []
    end.
Proof.
  intros Ht Hp Hn Hk.
  destruct (written_path_grammar name path Hn Hk) as [Hg Hseg].
  assert (Hg' : path_grammar (JS.join "." (name :: path) ++ ".") = true).
  { destruct (JS.join "." (name :: path)) as [|c r]; [discriminate|].
    cbn [path_grammar append] in *. apply andb_prop in Hg as [Hc Hr].
    rewrite Hc, all_chars_app, Hr. reflexivity. }
  unfold Completion.getSchemaSuggestions.
  rewrite (extract_written_path model position prefix _ Ht Hp Hg').
  replace (String.eqb (JS.join "." (name :: path) ++ ".") "") with false
    by (destruct (JS.join "." (name :: path)); reflexivity).
  cbn [negb]. rewrite (pathSegments_join_dot name path Hseg).
  reflexivity.
Qed.

Lemma completion_after_written_path_witness :
  map Completion.label
      (Completion.getSchemaSuggestions
         (Completion.mkModel (fun _ => "{{ order.")
                             (fun _ => Completion.mkWord "" 10 10))
         (Monaco.mkPosition 1 10)
         [("order",
           Zod.ZodObject
             [("cart",
               Zod.ZodArray
                 (Zod.ZodObject [("price", Zod.ZodNumber);
                                 ("name", Zod.ZodString)]))])])
  = ["cart"].
Proof.
  rewrite (completion_after_written_path
             (Completion.mkModel (fun _ => "{{ order.")
                                 (fun _ => Completion.mkWord "" 10 10))
             [("order",
               Zod.ZodObject
                 [("cart",
                   Zod.ZodArray
                     (Zod.ZodObject [("price", Zod.ZodNumber);
                                     ("name", Zod.ZodString)]))])]
             (Monaco.mkPosition 1 10)
             "{{ " "order" []).
  - reflexivity.
  - vm_compute. reflexivity.
  - reflexivity.
  - reflexivity.
  - constructor.
Defined.

(** ** One defect, one diagnostic *)














(** ** One defect of an output expression *)









